(** * SmoothTrack viewer and gaze tracker: a shallow embedding of [eye_track.py]

    The development follows the source file top to bottom:

    - [Wire]: the datagram decoder of the receive loop
      ([struct.unpack('dddddd', data)] behind the [len(data) == 48] guard).
      A Python float object is kept as the 64-bit pattern of its binary64
      representation, so that decoding can be compared bit for bit with
      the payload.
    - [project_3d_point] and [rotate_point]: the two 3D helpers.
    - [handle_event]: the calibration branch of the event loop.
    - [transform_vertex], [proj_points]: the cube rendering path.
    - [gaze_dot]: the gaze computation (coarse bounds, then corner
      interpolation).

    Arithmetic on Python floats is carried out over the real numbers: [+],
    [-], [*] are the field operations, [/] raises [ZeroDivisionError] on a
    zero divisor, [math.sin], [math.cos] are the real sine and cosine and
    [int] truncates towards zero.  Rounding, overflow and the special values
    of binary64 are outside this model.  A Python exception is a [Raise]
    result. *)

From Stdlib Require Import ZArith NArith List Bool Lia Strings.Byte String.
From Stdlib Require Import Reals Lra Zfloor.
Import ListNotations.

Set Implicit Arguments.

(** ** Exceptions *)

Inductive exn : Type :=
| ZeroDivisionError
| ValueError
| StructError
| IndexError.

Inductive result (A : Type) : Type :=
| Ok (a : A)
| Raise (e : exn).

Arguments Ok {A} a.
Arguments Raise {A} e.

Definition bind {A B : Type} (m : result A) (k : A -> result B) : result B :=
  match m with
  | Ok a => k a
  | Raise e => Raise e
  end.

Notation "x <- m ;; k" := (bind m (fun x => k))
  (at level 61, m at next level, right associativity).

Fixpoint mapM {A B : Type} (f : A -> result B) (l : list A) : result (list B) :=
  match l with
  | [] => Ok []
  | a :: l' => b <- f a ;; bs <- mapM f l' ;; Ok (b :: bs)
  end.

Fixpoint foldM {S E : Type} (f : S -> E -> result S) (s : S) (l : list E)
  : result S :=
  match l with
  | [] => Ok s
  | e :: l' => s' <- f s e ;; foldM f s' l'
  end.

(** ** CONFIGURATION *)

Definition WINDOW_WIDTH : Z := 1280.
Definition WINDOW_HEIGHT : Z := 720.
Definition BOX_SCALE : Z := 100.

(** ** The pose: [x, y, z, yaw, pitch, roll] *)

Record Pose (F : Type) : Type := mkPose {
  pose_x : F;
  pose_y : F;
  pose_z : F;
  pose_yaw : F;
  pose_pitch : F;
  pose_roll : F
}.

(** ** 1. READ UDP DATA *)

Module Wire.

(** Byte order of the host: format ['dddddd'] has no prefix, so
    [struct] uses native order, size and alignment.  Six doubles need no
    padding, hence 48 bytes. *)
Inductive byteorder : Type := Little | Big.

(** The bits of a binary64 value, as a number below [2^64]. *)
Definition double : Type := N.

Definition is_double (w : double) : Prop := (w < 2 ^ 64)%N.

Fixpoint le_to_N (bs : list byte) : N :=
  match bs with
  | [] => 0
  | b :: bs' => Byte.to_N b + 256 * le_to_N bs'
  end%N.

Definition byte_of_N (n : N) : byte :=
  match Byte.of_N (n mod 256) with
  | Some b => b
  | None => x00
  end.

Fixpoint N_to_le (len : nat) (w : N) : list byte :=
  match len with
  | O => []
  | S len' => byte_of_N w :: N_to_le len' (w / 256)
  end.

Definition word_of_bytes (o : byteorder) (bs : list byte) : double :=
  match o with
  | Little => le_to_N bs
  | Big => le_to_N (rev bs)
  end.

Definition bytes_of_word (o : byteorder) (w : double) : list byte :=
  match o with
  | Little => N_to_le 8 w
  | Big => rev (N_to_le 8 w)
  end.

(** The [i]-th 8-byte item of the buffer. *)
Definition item (i : nat) (data : list byte) : list byte :=
  firstn 8 (skipn (8 * i) data).

(** [struct.unpack('dddddd', data)]: [struct.error] unless the buffer has
    the size of the format. *)
Definition unpack_dddddd (o : byteorder) (data : list byte)
  : result (Pose double) :=
  if Nat.eqb (List.length data) 48 then
    Ok (mkPose (word_of_bytes o (item 0 data))
               (word_of_bytes o (item 1 data))
               (word_of_bytes o (item 2 data))
               (word_of_bytes o (item 3 data))
               (word_of_bytes o (item 4 data))
               (word_of_bytes o (item 5 data)))
  else Raise StructError.

(** [struct.pack('dddddd', *pose)], the inverse used to state the round
    trip. *)
Definition pack_dddddd (o : byteorder) (p : Pose double) : list byte :=
  bytes_of_word o (pose_x p) ++ bytes_of_word o (pose_y p) ++
  bytes_of_word o (pose_z p) ++ bytes_of_word o (pose_yaw p) ++
  bytes_of_word o (pose_pitch p) ++ bytes_of_word o (pose_roll p).

(** [sock.recvfrom(1024)] hands over at most 1024 bytes of a datagram
    (the rest of a longer one is dropped by the socket). *)
Definition recvfrom (bufsize : nat) (payload : list byte) : list byte :=
  firstn bufsize payload.

(** Body of the drain loop for one datagram:
    [if len(data) == 48: pose = struct.unpack('dddddd', data)]. *)
Definition decode_datagram (o : byteorder) (pose : Pose double)
           (payload : list byte) : result (Pose double) :=
  let data := recvfrom 1024 payload in
  if Nat.eqb (List.length data) 48 then unpack_dddddd o data else Ok pose.

(** The drain loop until [BlockingIOError]: every pending datagram in
    arrival order, the newest valid one wins. *)
Definition drain (o : byteorder) (pose : Pose double)
           (pending : list (list byte)) : result (Pose double) :=
  foldM (decode_datagram o) pose pending.

Definition pose_is_double (p : Pose double) : Prop :=
  is_double (pose_x p) /\ is_double (pose_y p) /\ is_double (pose_z p) /\
  is_double (pose_yaw p) /\ is_double (pose_pitch p) /\
  is_double (pose_roll p).

End Wire.

(** ** Python arithmetic on floats, over the reals *)

Local Open Scope R_scope.

(** [a / b]: [ZeroDivisionError] when [b == 0]. *)
Definition pydiv (a b : R) : result R :=
  if Req_dec_T b 0 then Raise ZeroDivisionError else Ok (a / b).

(** [int(r)]: truncation towards zero. *)
Definition py_int (r : R) : Z :=
  if Rle_dec 0 r then Zfloor r else Zceil r.

(** [min(l)] and [max(l)]: [ValueError] on an empty sequence. *)
Definition pymin (l : list R) : result R :=
  match l with
  | [] => Raise ValueError
  | a :: l' => Ok (fold_left Rmin l' a)
  end.

Definition pymax (l : list R) : result R :=
  match l with
  | [] => Raise ValueError
  | a :: l' => Ok (fold_left Rmax l' a)
  end.

(** [math.radians(d)]. *)
Definition radians (d : R) : R := d * (PI / 180).

(** ** 3D MATH HELPERS *)

(** Projects 3D coordinates to 2D screen space. *)
Definition project_3d_point (x y z width height scale : R) : result (Z * Z) :=
  factor <- pydiv 300 (z + 400) ;;
  let screen_x := x * factor * scale + width / 2 in
  let screen_y := (- y) * factor * scale + height / 2 in
  Ok (py_int screen_x, py_int screen_y).

(** Applies 3D rotation to a point. *)
Definition rotate_point (x y z pitch yaw roll : R) : R * R * R :=
  let pitch := radians pitch in
  let yaw := radians yaw in
  let roll := radians roll in
  (* Yaw (around Y) *)
  let nx := x * cos yaw - z * sin yaw in
  let nz := x * sin yaw + z * cos yaw in
  let x := nx in
  let z := nz in
  (* Pitch (around X) *)
  let ny := y * cos pitch - z * sin pitch in
  let nz := y * sin pitch + z * cos pitch in
  let y := ny in
  let z := nz in
  (* Roll (around Z) *)
  let nx := x * cos roll - y * sin roll in
  let ny := x * sin roll + y * cos roll in
  let x := nx in
  let y := ny in
  (x, y, z).

(** The planar rotation of the pair [(a, b)] by [theta] degrees, as the
    text of the specification has it: the reference the three steps of
    [rotate_point] are compared with. *)
Definition rot2 (theta : R) (ab : R * R) : R * R :=
  let '(a, b) := ab in
  (a * cos (radians theta) - b * sin (radians theta),
   a * sin (radians theta) + b * cos (radians theta)).

Definition yaw_step (yaw : R) (p : R * R * R) : R * R * R :=
  let '(x, y, z) := p in
  let '(x', z') := rot2 yaw (x, z) in (x', y, z').

Definition pitch_step (pitch : R) (p : R * R * R) : R * R * R :=
  let '(x, y, z) := p in
  let '(y', z') := rot2 pitch (y, z) in (x, y', z').

Definition roll_step (roll : R) (p : R * R * R) : R * R * R :=
  let '(x, y, z) := p in
  let '(x', y') := rot2 roll (x, y) in (x', y', z).

(** [Rotate(p, pitch, yaw, roll)] on a point given as a triple. *)
Definition Rotate (p : R * R * R) (pitch yaw roll : R) : R * R * R :=
  let '(x, y, z) := p in rotate_point x y z pitch yaw roll.

(** ** 2. HANDLE EVENTS *)

Inductive key : Type := K_c | K_SPACE | K_other.

Inductive event : Type :=
| QUIT
| KEYDOWN (k : key)
| OTHER.

(** The state variables of [main] that outlive a frame. *)
Record State : Type := mkState {
  running : bool;
  calibrating : bool;
  (* 0: Top-Left, 1: Top-Right, 2: Bottom-Right, 3: Bottom-Left *)
  calib_step : nat;
  (* (yaw, pitch) for each corner *)
  calib_points : list (R * R);
  min_yaw : R;
  max_yaw : R;
  min_pitch : R;
  max_pitch : R
}.

Definition init_state : State :=
  mkState true false 0 [] (-20) 20 (-20) 20.

(** One iteration of [for event in pygame.event.get()], with the pose that
    was unpacked before the loop. *)
Definition handle_event (pose : Pose R) (st : State) (ev : event)
  : result State :=
  let yaw := pose_yaw pose in
  let pitch := pose_pitch pose in
  match ev with
  | QUIT =>
      Ok (mkState false (calibrating st) (calib_step st) (calib_points st)
                  (min_yaw st) (max_yaw st) (min_pitch st) (max_pitch st))
  | KEYDOWN K_c =>
      Ok (mkState (running st) true 0 []
                  (min_yaw st) (max_yaw st) (min_pitch st) (max_pitch st))
  | KEYDOWN K_SPACE =>
      if calibrating st then
        let calib_points' := calib_points st ++ [(yaw, pitch)] in
        let calib_step' := S (calib_step st) in
        if Nat.ltb 3 calib_step' then
          let yaws := map fst calib_points' in
          let pitchs := map snd calib_points' in
          min_yaw' <- pymin yaws ;;
          max_yaw' <- pymax yaws ;;
          min_pitch' <- pymin pitchs ;;
          max_pitch' <- pymax pitchs ;;
          Ok (mkState (running st) false calib_step' calib_points'
                      min_yaw' max_yaw' min_pitch' max_pitch')
        else
          Ok (mkState (running st) true calib_step' calib_points'
                      (min_yaw st) (max_yaw st) (min_pitch st) (max_pitch st))
      else Ok st
  | KEYDOWN K_other => Ok st
  | OTHER => Ok st
  end.

(** A session: the triggers in arrival order, each with the pose that is
    live in its frame. *)
Definition run (st : State) (trace : list (Pose R * event)) : result State :=
  foldM (fun s pe => handle_event (fst pe) s (snd pe)) st trace.

(** The prompt of the UI TEXT section: [steps[calib_step]] while
    calibrating. *)
Definition steps : list string :=
  ["Top-Left"; "Top-Right"; "Bottom-Right"; "Bottom-Left"]%string.

Definition prompt (st : State) : result (option string) :=
  if calibrating st then
    match nth_error steps (calib_step st) with
    | Some s => Ok (Some s)
    | None => Raise IndexError
    end
  else Ok None.

(** ** 3. DRAWING *)

Definition vertices : list (R * R * R) :=
  [(-1, -1, -1); (1, -1, -1); (1, 1, -1); (-1, 1, -1);
   (-1, -1, 1); (1, -1, 1); (1, 1, 1); (-1, 1, 1)].

(** Body of [for v in vertices]: rotate, translate, project. *)
Definition transform_vertex (pose : Pose R) (v : R * R * R) : result (Z * Z) :=
  let '(vx, vy, vz) := v in
  let '(rx, ry, rz) :=
    rotate_point vx vy vz (pose_pitch pose) (pose_yaw pose) (pose_roll pose) in
  let tx := rx + pose_x pose / 10 in
  let ty := ry + pose_y pose / 10 in
  let tz := rz - 5 in
  project_3d_point tx ty tz
                   (IZR WINDOW_WIDTH) (IZR WINDOW_HEIGHT) (IZR BOX_SCALE).

Definition proj_points (pose : Pose R) : result (list (Z * Z)) :=
  mapM (transform_vertex pose) vertices.

(** *** The gaze dot *)

(** The coarse estimate from the calibrated bounds, clamped to the
    screen. *)
Definition coarse_gaze (st : State) (yaw pitch : R) : result (Z * Z) :=
  let yaw_range :=
    if Req_dec_T (max_yaw st - min_yaw st) 0 then 1
    else max_yaw st - min_yaw st in
  let pitch_range :=
    if Req_dec_T (max_pitch st - min_pitch st) 0 then 1
    else max_pitch st - min_pitch st in
  norm_x <- pydiv (yaw - min_yaw st) yaw_range ;;
  norm_y <- pydiv (pitch - min_pitch st) pitch_range ;;
  let screen_gaze_x :=
    Z.max 0 (Z.min WINDOW_WIDTH (py_int (norm_x * IZR WINDOW_WIDTH))) in
  let screen_gaze_y :=
    Z.max 0 (Z.min WINDOW_HEIGHT (py_int (norm_y * IZR WINDOW_HEIGHT))) in
  Ok (screen_gaze_x, screen_gaze_y).

Definition ratio_x (tl tr br bl : R * R) (yaw : R) : result R :=
  let yaw_left := (fst tl + fst bl) / 2 in
  let yaw_right := (fst tr + fst br) / 2 in
  if Req_dec_T (yaw_right - yaw_left) 0 then Ok (1 / 2)
  else pydiv (yaw - yaw_left) (yaw_right - yaw_left).

Definition ratio_y (tl tr br bl : R * R) (pitch : R) : result R :=
  let pitch_top := (snd tl + snd tr) / 2 in
  let pitch_bottom := (snd br + snd bl) / 2 in
  if Req_dec_T (pitch_bottom - pitch_top) 0 then Ok (1 / 2)
  else pydiv (pitch - pitch_top) (pitch_bottom - pitch_top).

(** The corner interpolation of the [len(calib_points) == 4] branch: the
    two ratios, then the pixel. *)
Definition corner_ratios (points : list (R * R)) (yaw pitch : R)
  : result (option (R * R)) :=
  match points with
  | [tl; tr; br; bl] =>
      rx <- ratio_x tl tr br bl yaw ;;
      ry <- ratio_y tl tr br bl pitch ;;
      Ok (Some (rx, ry))
  | _ => Ok None
  end.

Definition corner_gaze (points : list (R * R)) (yaw pitch : R)
  : result (option (Z * Z)) :=
  r <- corner_ratios points yaw pitch ;;
  match r with
  | Some (rx, ry) =>
      let screen_gaze_x := py_int (rx * IZR WINDOW_WIDTH) in
      let screen_gaze_y := py_int (ry * IZR WINDOW_HEIGHT) in
      Ok (Some (screen_gaze_x, screen_gaze_y))
  | None => Ok None
  end.

(** What the DRAW GAZE DOT section computes in a frame. *)
Record Gaze : Type := mkGaze {
  coarse : Z * Z;            (* the clamped min/max estimate *)
  dot : option (Z * Z)       (* the circle that is drawn, if any *)
}.

Definition gaze_dot (st : State) (pose : Pose R) : result (option Gaze) :=
  let yaw := pose_yaw pose in
  let pitch := pose_pitch pose in
  if negb (calibrating st) then
    c <- coarse_gaze st yaw pitch ;;
    d <- corner_gaze (calib_points st) yaw pitch ;;
    Ok (Some (mkGaze c d))
  else Ok None.

(** *** Reading a session *)

(** The samples a trace captures: one [(yaw, pitch)] per SPACE key. *)
Definition captures (trace : list (Pose R * event)) : list (R * R) :=
  flat_map (fun pe =>
              match snd pe with
              | KEYDOWN K_SPACE => [(pose_yaw (fst pe), pose_pitch (fst pe))]
              | _ => []
              end) trace.

Definition is_start (ev : event) : bool :=
  match ev with
  | KEYDOWN K_c => true
  | _ => false
  end.

(** No 'C' key in the trace. *)
Definition no_start (trace : list (Pose R * event)) : Prop :=
  forallb (fun pe => negb (is_start (snd pe))) trace = true.

Definition start (p : Pose R) : Pose R * event := (p, KEYDOWN K_c).
Definition capture (p : Pose R) : Pose R * event := (p, KEYDOWN K_SPACE).
Definition sample (p : Pose R) : R * R := (pose_yaw p, pose_pitch p).

(** *** The end-to-end scenario of the specification

    The datagram [x=0, y=0, z=0, yaw=10, pitch=-5, roll=0] on a
    little-endian host: [10.0] is [0x4024000000000000] and [-5.0] is
    [0xC014000000000000]. *)
Definition scenario_payload : list byte :=
  [x00; x00; x00; x00; x00; x00; x00; x00;
   x00; x00; x00; x00; x00; x00; x00; x00;
   x00; x00; x00; x00; x00; x00; x00; x00;
   x00; x00; x00; x00; x00; x00; x24; x40;
   x00; x00; x00; x00; x00; x00; x14; xc0;
   x00; x00; x00; x00; x00; x00; x00; x00].

Definition scenario_bits : Pose Wire.double :=
  mkPose 0%N 0%N 0%N 4621819117588971520%N 13840687554816376832%N 0%N.

Definition zero_bits : Pose Wire.double := mkPose 0%N 0%N 0%N 0%N 0%N 0%N.

Definition scenario_pose : Pose R := mkPose 0 0 0 10 (-5) 0.

(** The invariant of the calibration branch: while calibrating, one stored
    sample per step taken, and a step that [steps] can label. *)
Definition calib_inv (st : State) : Prop :=
  calibrating st = true ->
  List.length (calib_points st) = calib_step st /\ (calib_step st <= 3)%nat.

(** The four corner poses of the scenario (yaw and pitch in [{-20, 20}])
    and the table they calibrate. *)
Definition pose_TL : Pose R := mkPose 0 0 0 (-20) (-20) 0.
Definition pose_TR : Pose R := mkPose 0 0 0 20 (-20) 0.
Definition pose_BR : Pose R := mkPose 0 0 0 20 20 0.
Definition pose_BL : Pose R := mkPose 0 0 0 (-20) 20 0.

Definition scenario_table : list (R * R) :=
  [(-20, -20); (20, -20); (20, 20); (-20, 20)].

(** A session interrupted after two captures. *)
Definition partial_state : State :=
  mkState true true 2 [(1, 2); (3, 4)] (-20) 20 (-20) 20.



(** *** From the bits to the number

    The real number a finite binary64 pattern stands for (sign bit, 11
    exponent bits, 52 fraction bits); infinities and NaN stand for none.
    This is how the pose written by the decoder is read by the arithmetic
    of the later sections. *)
Definition binary64_value (w : Wire.double) : option R :=
  let sign := N.testbit w 63 in
  let e := ((w / 2 ^ 52) mod 2 ^ 11)%N in
  let m := (w mod 2 ^ 52)%N in
  if (e =? 2047)%N then None
  else
    let mag :=
      if (e =? 0)%N then IZR (Z.of_N m) * powerRZ 2 (-1074)
      else IZR (Z.of_N (2 ^ 52 + m)) * powerRZ 2 (Z.of_N e - 1075) in
    Some (if sign then - mag else mag).

Definition pose_value (p : Pose Wire.double) : option (Pose R) :=
  match binary64_value (pose_x p), binary64_value (pose_y p),
        binary64_value (pose_z p), binary64_value (pose_yaw p),
        binary64_value (pose_pitch p), binary64_value (pose_roll p) with
  | Some x, Some y, Some z, Some yaw, Some pitch, Some roll =>
      Some (mkPose x y z yaw pitch roll)
  | _, _, _, _, _, _ => None
  end.

(** The state after the calibration of the scenario. *)
Definition scenario_state : State :=
  mkState true false 4 scenario_table (-20) 20 (-20) 20.

(** *** The rest of the frame *)






(** The marker of the UI TEXT section: [cx, cy = 0, 0], then one of the
    four [if]/[elif] branches; nothing is drawn when not calibrating. *)
Definition marker (st : State) : option (Z * Z) :=
  if calibrating st then
    Some (match calib_step st with
          | 0%nat => (20, 20)
          | 1%nat => (WINDOW_WIDTH - 20, 20)
          | 2%nat => (WINDOW_WIDTH - 20, WINDOW_HEIGHT - 20)
          | 3%nat => (20, WINDOW_HEIGHT - 20)
          | _ => (0, 0)
          end)%Z
  else None.




(** The invariant of the sample table: the calibration invariant, and an
    idle table is empty or complete. *)
Definition table_inv (st : State) : Prop :=
  calib_inv st /\
  (calibrating st = false ->
   calib_points st = [] \/ List.length (calib_points st) = 4%nat).


(** Three corners captured, the fourth one awaited. *)
Definition three_corners_state : State :=
  mkState true true 3 [(-20, -20); (20, -20); (20, 20)] (-20) 20 (-20) 20.

(** The calibrated bounds are ordered. *)
Definition bounds_ordered (st : State) : Prop :=
  min_yaw st <= max_yaw st /\ min_pitch st <= max_pitch st.

(** * Facts *)

Unset Implicit Arguments.

(** ** The decoder *)

Module WireFacts.
Import Wire.
Local Open Scope N_scope.

Lemma to_N_lt (b : byte) : Byte.to_N b < 256.
Proof. pose proof (Byte.to_N_bounded b). lia. Qed.

Lemma byte_of_N_spec (n : N) : Byte.to_N (byte_of_N n) = n mod 256.
Proof.
  unfold byte_of_N.
  destruct (Byte.of_N (n mod 256)) as [b|] eqn:E.
  - now apply Byte.to_of_N.
  - apply Byte.of_N_None_iff in E.
    pose proof (N.mod_upper_bound n 256). lia.
Qed.

Lemma byte_of_N_cons (b : byte) (n : N) :
  byte_of_N (Byte.to_N b + 256 * n) = b.
Proof.
  unfold byte_of_N.
  replace ((Byte.to_N b + 256 * n) mod 256) with (Byte.to_N b).
  - now rewrite Byte.of_to_N.
  - pose proof (to_N_lt b).
    replace (Byte.to_N b + 256 * n) with (Byte.to_N b + n * 256) by lia.
    rewrite N.Div0.mod_add. symmetry. now apply N.mod_small.
Qed.

Lemma div_cons (b : byte) (n : N) : (Byte.to_N b + 256 * n) / 256 = n.
Proof.
  pose proof (to_N_lt b).
  replace (Byte.to_N b + 256 * n) with (n * 256 + Byte.to_N b) by lia.
  rewrite N.div_add_l by lia.
  rewrite N.div_small by lia. lia.
Qed.

Lemma N_to_le_le_to_N (bs : list byte) :
  N_to_le (List.length bs) (le_to_N bs) = bs.
Proof.
  induction bs as [|b bs IH]; cbn [List.length le_to_N N_to_le].
  - reflexivity.
  - now rewrite byte_of_N_cons, div_cons, IH.
Qed.

Lemma le_to_N_N_to_le (len : nat) :
  forall w, le_to_N (N_to_le len w) = w mod 256 ^ N.of_nat len.
Proof.
  induction len as [|len IH]; intro w.
  - cbn. now rewrite N.mod_1_r.
  - cbn [N_to_le le_to_N]. rewrite byte_of_N_spec, IH.
    rewrite Nnat.Nat2N.inj_succ, N.pow_succ_r'.
    rewrite (N.Div0.mod_mul_r w 256 (256 ^ N.of_nat len)). lia.
Qed.

Lemma length_N_to_le (len : nat) : forall w, List.length (N_to_le len w) = len.
Proof. induction len; intro w; cbn; auto. Qed.

Lemma length_bytes_of_word o w : List.length (bytes_of_word o w) = 8%nat.
Proof.
  destruct o; unfold bytes_of_word;
    now rewrite ?length_rev, length_N_to_le.
Qed.

Lemma le_to_N_bound (bs : list byte) :
  le_to_N bs < 256 ^ N.of_nat (List.length bs).
Proof.
  induction bs as [|b bs IH]; cbn [List.length le_to_N].
  - cbn. lia.
  - rewrite Nnat.Nat2N.inj_succ, N.pow_succ_r'.
    pose proof (to_N_lt b). nia.
Qed.

Lemma word_of_bytes_is_double o bs :
  List.length bs = 8%nat -> is_double (word_of_bytes o bs).
Proof.
  intro L. unfold is_double.
  assert (B : forall l, List.length l = 8%nat -> le_to_N l < 2 ^ 64).
  { intros l Hl. pose proof (le_to_N_bound l) as Hb. rewrite Hl in Hb.
    exact Hb. }
  destruct o; cbn [word_of_bytes]; apply B; now rewrite ?length_rev.
Qed.

Lemma bytes_of_word_of_bytes o bs :
  List.length bs = 8%nat -> bytes_of_word o (word_of_bytes o bs) = bs.
Proof.
  intro L. destruct o; unfold bytes_of_word, word_of_bytes.
  - rewrite <- L. apply N_to_le_le_to_N.
  - rewrite <- (length_rev bs) in L. rewrite <- L, N_to_le_le_to_N.
    apply rev_involutive.
Qed.

Lemma word_of_bytes_of_word o w :
  is_double w -> word_of_bytes o (bytes_of_word o w) = w.
Proof.
  unfold is_double. intro B.
  assert (E : le_to_N (N_to_le 8 w) = w).
  { rewrite le_to_N_N_to_le. apply N.mod_small. exact B. }
  destruct o; unfold bytes_of_word, word_of_bytes;
    now rewrite ?rev_involutive.
Qed.

Lemma item_0_app (a r : list byte) :
  List.length a = 8%nat -> item 0 (a ++ r) = a.
Proof.
  intro L. unfold item. rewrite Nat.mul_0_r. cbn [skipn].
  rewrite firstn_app, L, Nat.sub_diag, firstn_O, app_nil_r.
  apply firstn_all2. lia.
Qed.

Lemma item_S_app (i : nat) (a r : list byte) :
  List.length a = 8%nat -> item (S i) (a ++ r) = item i r.
Proof.
  intro L. unfold item.
  rewrite skipn_app, L.
  rewrite skipn_all2 by lia.
  replace (8 * S i - 8)%nat with (8 * i)%nat by lia.
  reflexivity.
Qed.

Lemma length_item (i : nat) (data : list byte) :
  (8 * i + 8 <= List.length data)%nat -> List.length (item i data) = 8%nat.
Proof.
  intro L. unfold item. rewrite length_firstn, length_skipn. lia.
Qed.

Lemma items_cover (data : list byte) :
  List.length data = 48%nat ->
  item 0 data ++ item 1 data ++ item 2 data ++
  item 3 data ++ item 4 data ++ item 5 data = data.
Proof.
  intro L.
  do 48 (destruct data as [|? data]; [discriminate L|]).
  destruct data; [reflexivity | discriminate L].
Qed.

Lemma length_pack o p : List.length (pack_dddddd o p) = 48%nat.
Proof.
  unfold pack_dddddd. now rewrite !length_app, !length_bytes_of_word.
Qed.

Lemma pack_unpack o data p :
  unpack_dddddd o data = Ok p -> pack_dddddd o p = data.
Proof.
  unfold unpack_dddddd.
  destruct (Nat.eqb_spec (List.length data) 48) as [L|]; [|discriminate].
  intro E. injection E as <-. unfold pack_dddddd.
  cbn [pose_x pose_y pose_z pose_yaw pose_pitch pose_roll].
  rewrite !bytes_of_word_of_bytes by (apply length_item; lia).
  now apply items_cover.
Qed.

Lemma unpack_pack o p :
  pose_is_double p -> unpack_dddddd o (pack_dddddd o p) = Ok p.
Proof.
  destruct p as [x y z yaw pitch roll].
  unfold pose_is_double;
    cbn [pose_x pose_y pose_z pose_yaw pose_pitch pose_roll].
  intros (Hx & Hy & Hz & Hyaw & Hpitch & Hroll).
  unfold unpack_dddddd. rewrite length_pack, Nat.eqb_refl.
  unfold pack_dddddd; cbn [pose_x pose_y pose_z pose_yaw pose_pitch pose_roll].
  rewrite <- (app_nil_r (bytes_of_word o roll)).
  repeat first [ rewrite item_0_app by apply length_bytes_of_word
               | rewrite item_S_app by apply length_bytes_of_word ].
  now rewrite !word_of_bytes_of_word.
Qed.

Lemma recvfrom_short (payload : list byte) :
  (List.length payload <= 1024)%nat -> recvfrom 1024 payload = payload.
Proof. intro L. unfold recvfrom. now apply firstn_all2. Qed.

(** The guard of the drain loop fails on every other length, also after
    the truncation to the receive buffer. *)
Lemma guard_other_length (payload : list byte) :
  List.length payload <> 48%nat ->
  Nat.eqb (List.length (recvfrom 1024 payload)) 48 = false.
Proof.
  intro L. apply Nat.eqb_neq. unfold recvfrom. rewrite length_firstn. lia.
Qed.

(** C4.  A datagram whose payload is not 48 bytes long raises nothing
    and leaves the pose, all six fields, as it was. *)
Theorem decode_other_length_keeps_pose o (pose : Pose double)
        (payload : list byte) :
  List.length payload <> 48%nat ->
  decode_datagram o pose payload = Ok pose.
Proof.
  intro L. unfold decode_datagram.
  destruct (Nat.eqb (List.length (recvfrom 1024 payload)) 48) eqn:G.
  - rewrite (guard_other_length payload L) in G. discriminate G.
  - reflexivity.
Qed.

Lemma decode_other_length_keeps_pose_witness :
  List.length [x01; x02; x03] <> 48%nat /\
  decode_datagram Little scenario_bits [x01; x02; x03] = Ok scenario_bits.
Proof.
  split.
  - cbn. lia.
  - apply (decode_other_length_keeps_pose Little scenario_bits [x01; x02; x03]).
    cbn. lia.
Defined.

(** The drain loop keeps the pose when none of the pending datagrams has
    48 bytes. *)
Lemma drain_other_lengths o (pending : list (list byte)) :
  forall pose,
    Forall (fun payload => List.length payload <> 48%nat) pending ->
    drain o pose pending = Ok pose.
Proof.
  unfold drain.
  induction pending as [|d pending IH]; intros pose F; cbn [foldM].
  - reflexivity.
  - inversion F as [|? ? Hd Hrest]; subst.
    unfold decode_datagram at 1. rewrite (guard_other_length d Hd).
    cbn [bind]. now apply IH.
Qed.

Lemma decode_48 o pose (payload : list byte) :
  List.length payload = 48%nat ->
  decode_datagram o pose payload = unpack_dddddd o payload.
Proof.
  intro L. unfold decode_datagram.
  rewrite recvfrom_short by lia. now rewrite L.
Qed.

(** C5.  A 48-byte payload replaces the pose by its six 8-byte items read
    in native order, in the field order x, y, z, yaw, pitch, roll;
    packing the decoded pose gives the payload back, and every pose of
    six 64-bit values is the decoding of its own packing: decoding is a
    bijection between 48-byte payloads and poses of six doubles. *)
Theorem decode_48_bytes_bijection o (pose : Pose double)
        (payload : list byte) (q : Pose double) :
  List.length payload = 48%nat ->
  pose_is_double q ->
  (exists p,
      decode_datagram o pose payload = Ok p /\
      pose_x p = word_of_bytes o (item 0 payload) /\
      pose_y p = word_of_bytes o (item 1 payload) /\
      pose_z p = word_of_bytes o (item 2 payload) /\
      pose_yaw p = word_of_bytes o (item 3 payload) /\
      pose_pitch p = word_of_bytes o (item 4 payload) /\
      pose_roll p = word_of_bytes o (item 5 payload) /\
      pose_is_double p /\
      pack_dddddd o p = payload) /\
  (List.length (pack_dddddd o q) = 48%nat /\
   decode_datagram o pose (pack_dddddd o q) = Ok q).
Proof.
  intros L Q. split.
  - rewrite (decode_48 o pose payload L).
    assert (U : unpack_dddddd o payload =
                Ok (mkPose (word_of_bytes o (item 0 payload))
                           (word_of_bytes o (item 1 payload))
                           (word_of_bytes o (item 2 payload))
                           (word_of_bytes o (item 3 payload))
                           (word_of_bytes o (item 4 payload))
                           (word_of_bytes o (item 5 payload)))).
    { unfold unpack_dddddd. now rewrite L. }
    eexists. split; [exact U|].
    cbn [pose_x pose_y pose_z pose_yaw pose_pitch pose_roll].
    repeat (split; [reflexivity|]).
    split.
    + unfold pose_is_double;
        cbn [pose_x pose_y pose_z pose_yaw pose_pitch pose_roll].
      repeat split; apply word_of_bytes_is_double; apply length_item; lia.
    + now apply (pack_unpack o payload _ U).
  - split; [apply length_pack|].
    rewrite (decode_48 o pose _ (length_pack o q)).
    now apply unpack_pack.
Qed.

Lemma decode_48_bytes_bijection_witness :
  List.length scenario_payload = 48%nat /\
  pose_is_double scenario_bits /\
  decode_datagram Little zero_bits scenario_payload = Ok scenario_bits /\
  pack_dddddd Little scenario_bits = scenario_payload.
Proof.
  assert (L : List.length scenario_payload = 48%nat) by reflexivity.
  assert (Q : pose_is_double scenario_bits).
  { unfold pose_is_double, is_double; cbn. repeat split; lia. }
  assert (P : pack_dddddd Little scenario_bits = scenario_payload)
    by (vm_compute; reflexivity).
  destruct (decode_48_bytes_bijection Little zero_bits scenario_payload
                                      scenario_bits L Q) as [_ [_ D]].
  rewrite P in D.
  repeat split; try exact L; try apply Q; assumption.
Defined.

End WireFacts.

(** ** The calibration state machine *)

Section Calibration.

Local Open Scope nat_scope.

Lemma pymin_snoc {A : Type} (f : A -> R) (l : list A) (a : A) :
  exists m, pymin (map f (l ++ [a])) = Ok m.
Proof. destruct l; cbn [app map pymin]; eauto. Qed.

Lemma pymax_snoc {A : Type} (f : A -> R) (l : list A) (a : A) :
  exists m, pymax (map f (l ++ [a])) = Ok m.
Proof. destruct l; cbn [app map pymax]; eauto. Qed.

(** A capture while calibrating: the sample is appended, the step
    advances, and the fourth one ends the cycle. *)
Lemma capture_step (pose : Pose R) (st : State) :
  calibrating st = true ->
  exists st',
    handle_event pose st (KEYDOWN K_SPACE) = Ok st' /\
    calib_points st' = calib_points st ++ [sample pose] /\
    calib_step st' = S (calib_step st) /\
    calibrating st' = negb (3 <? S (calib_step st)).
Proof.
  intro C. unfold handle_event. rewrite C.
  destruct (3 <? S (calib_step st)).
  - destruct (pymin_snoc fst (calib_points st) (sample pose)) as [a Ha].
    destruct (pymax_snoc fst (calib_points st) (sample pose)) as [b Hb].
    destruct (pymin_snoc snd (calib_points st) (sample pose)) as [c Hc].
    destruct (pymax_snoc snd (calib_points st) (sample pose)) as [d Hd].
    unfold sample in Ha, Hb, Hc, Hd.
    rewrite Ha, Hb, Hc, Hd. cbn [bind].
    eexists. split; [reflexivity|]. cbn. auto.
  - eexists. split; [reflexivity|]. cbn. auto.
Qed.

(** A capture while idle changes nothing. *)
Lemma capture_idle (pose : Pose R) (st : State) :
  calibrating st = false ->
  handle_event pose st (KEYDOWN K_SPACE) = Ok st.
Proof. intro C. unfold handle_event. now rewrite C. Qed.

(** Events other than the two calibration keys leave the calibration
    state alone. *)
Lemma other_event_step (pose : Pose R) (st : State) (ev : event) :
  ev <> KEYDOWN K_c -> ev <> KEYDOWN K_SPACE ->
  exists st',
    handle_event pose st ev = Ok st' /\
    calibrating st' = calibrating st /\
    calib_step st' = calib_step st /\
    calib_points st' = calib_points st.
Proof.
  intros N1 N2. destruct ev as [|[| |]|]; try congruence;
    cbn [handle_event]; eexists; (split; [reflexivity|]); cbn; auto.
Qed.

Lemma start_step (pose : Pose R) (st : State) :
  exists st',
    handle_event pose st (KEYDOWN K_c) = Ok st' /\
    calibrating st' = true /\ calib_step st' = 0 /\ calib_points st' = [].
Proof. cbn [handle_event]. eexists. split; [reflexivity|]. cbn. auto. Qed.

Lemma handle_event_inv (pose : Pose R) (st : State) (ev : event) :
  calib_inv st ->
  exists st', handle_event pose st ev = Ok st' /\ calib_inv st'.
Proof.
  intro I.
  destruct ev as [|[| |]|].
  - destruct (other_event_step pose st QUIT) as (st' & E & Hc & Hs & Hp);
      try discriminate.
    exists st'. split; [exact E|]. unfold calib_inv. now rewrite Hc, Hs, Hp.
  - destruct (start_step pose st) as (st' & E & Hc & Hs & Hp).
    exists st'. split; [exact E|]. unfold calib_inv. rewrite Hs, Hp. cbn. lia.
  - destruct (calibrating st) eqn:C.
    + destruct (capture_step pose st C) as (st' & E & Hp & Hs & Hc).
      exists st'. split; [exact E|]. unfold calib_inv.
      rewrite Hc, Hp, Hs, length_app. cbn [List.length].
      destruct (I C) as [L B].
      destruct (Nat.ltb_spec 3 (S (calib_step st))); cbn [negb];
        [discriminate | lia].
    + exists st. split; [now apply capture_idle | exact I].
  - exists st. split; [reflexivity | exact I].
  - exists st. split; [reflexivity | exact I].
Qed.

(** No trace raises, and the invariant holds all along. *)
Lemma run_inv (trace : list (Pose R * event)) :
  forall st, calib_inv st ->
             exists st', run st trace = Ok st' /\ calib_inv st'.
Proof.
  unfold run.
  induction trace as [|[pose ev] trace IH]; intros st I; cbn [foldM].
  - eauto.
  - destruct (handle_event_inv pose st ev I) as (st1 & E & I1).
    cbn [fst snd]. rewrite E. cbn [bind]. now apply IH.
Qed.

Lemma run_cons (st : State) (pe : Pose R * event) trace :
  run st (pe :: trace) =
  (st' <- handle_event (fst pe) st (snd pe) ;; run st' trace).
Proof. reflexivity. Qed.

(** Once a cycle is complete, only a new start changes the table. *)
Lemma run_idle_no_start (trace : list (Pose R * event)) :
  forall st,
    calibrating st = false -> no_start trace ->
    exists st',
      run st trace = Ok st' /\
      calibrating st' = false /\
      calib_step st' = calib_step st /\
      calib_points st' = calib_points st.
Proof.
  unfold no_start.
  induction trace as [|[pose ev] trace IH]; intros st C N.
  - exists st. cbn. auto.
  - cbn [forallb snd] in N. apply andb_true_iff in N as [N1 N2].
    rewrite run_cons. cbn [fst snd].
    assert (H : exists st1, handle_event pose st ev = Ok st1 /\
                            calibrating st1 = false /\
                            calib_step st1 = calib_step st /\
                            calib_points st1 = calib_points st).
    { destruct ev as [|[| |]|]; try discriminate N1.
      - destruct (other_event_step pose st QUIT) as (s & E & Cs & Ss & Ps);
          try discriminate.
        exists s. rewrite Cs. auto.
      - exists st. rewrite capture_idle by assumption. auto.
      - exists st. cbn. auto.
      - exists st. cbn. auto. }
    destruct H as (st1 & E & C1 & S1 & P1). rewrite E. cbn [bind].
    destruct (IH st1 C1 N2) as (st' & R' & C' & S' & P').
    exists st'. rewrite R', C', S', P'. auto.
Qed.

(** While calibrating, the table grows by the captures of the trace and
    freezes at the fourth. *)
Lemma run_calibrating_no_start (trace : list (Pose R * event)) :
  forall st,
    calibrating st = true -> calib_inv st -> no_start trace ->
    exists st',
      run st trace = Ok st' /\
      calib_points st' = firstn 4 (calib_points st ++ captures trace) /\
      calibrating st' =
        (List.length (calib_points st ++ captures trace) <? 4).
Proof.
  unfold no_start.
  induction trace as [|[pose ev] trace IH]; intros st C I N.
  - exists st. destruct (I C) as [L B].
    cbn [run foldM captures flat_map]. rewrite app_nil_r.
    rewrite firstn_all2 by lia. rewrite C.
    repeat split. symmetry. apply Nat.ltb_lt. lia.
  - cbn [forallb snd] in N. apply andb_true_iff in N as [N1 N2].
    rewrite run_cons. cbn [fst snd].
    destruct (I C) as [L B].
    destruct ev as [|[| |]|]; try discriminate N1.
    + destruct (other_event_step pose st QUIT) as (s & E & Cs & Ss & Ps);
        try discriminate.
      rewrite E. cbn [bind].
      assert (Is : calib_inv s) by (unfold calib_inv; now rewrite Ss, Ps).
      rewrite C in Cs.
      destruct (IH s Cs Is N2) as (st' & R' & P' & C').
      exists st'. rewrite R', P', C', Ps. auto.
    + destruct (capture_step pose st C) as (s & E & Ps & Ss & Cs).
      rewrite E. cbn [bind].
      cbn [captures flat_map snd fst]. fold (captures trace).
      fold (sample pose). cbn [app].
      replace (calib_points st ++ sample pose :: captures trace)
        with (calib_points s ++ captures trace)
        by (rewrite Ps, <- app_assoc; reflexivity).
      destruct (Nat.ltb_spec 3 (S (calib_step st))) as [Full|More];
        cbn [negb] in Cs.
      * destruct (run_idle_no_start trace s Cs N2) as (st' & R' & C' & _ & P').
        assert (Ls : List.length (calib_points s) = 4)
          by (rewrite Ps, length_app; cbn [List.length]; lia).
        exists st'. rewrite R', P', C'. split; [reflexivity|]. split.
        -- rewrite firstn_app, Ls, Nat.sub_diag, firstn_O, app_nil_r.
           rewrite firstn_all2 by lia. reflexivity.
        -- symmetry. apply Nat.ltb_ge. rewrite length_app. lia.
      * assert (Is : calib_inv s).
        { unfold calib_inv. rewrite Ps, Ss, length_app. cbn [List.length].
          lia. }
        destruct (IH s Cs Is N2) as (st' & R' & P' & C').
        exists st'. rewrite R', P', C'. auto.
    + cbn [handle_event bind].
      destruct (IH st C I N2) as (st' & R' & P' & C').
      exists st'. rewrite R', P', C'. auto.
    + cbn [handle_event bind].
      destruct (IH st C I N2) as (st' & R' & P' & C').
      exists st'. rewrite R', P', C'. auto.
Qed.

(** C1.  From an idle state with no samples, a start followed by four
    captures walks through the steps Top-Left, Top-Right, Bottom-Right,
    Bottom-Left, storing one live [(yaw, pitch)] per step, and ends idle
    with exactly these four samples in that order; a further capture is
    then a no-op; and in every state reachable from the idle state the
    number of stored samples is the step index while calibrating. *)
Theorem calibration_cycle (st0 : State) (p0 p1 p2 p3 p4 : Pose R) :
  calibrating st0 = false ->
  calib_points st0 = [] ->
  exists s0 s1 s2 s3 s4,
    run st0 [start p0] = Ok s0 /\
    run st0 [start p0; capture p1] = Ok s1 /\
    run st0 [start p0; capture p1; capture p2] = Ok s2 /\
    run st0 [start p0; capture p1; capture p2; capture p3] = Ok s3 /\
    run st0 [start p0; capture p1; capture p2; capture p3; capture p4]
      = Ok s4 /\
    (calibrating s0 = true /\ calib_step s0 = 0 /\ calib_points s0 = [] /\
     prompt s0 = Ok (Some "Top-Left"%string)) /\
    (calibrating s1 = true /\ calib_step s1 = 1 /\
     calib_points s1 = [sample p1] /\
     prompt s1 = Ok (Some "Top-Right"%string)) /\
    (calibrating s2 = true /\ calib_step s2 = 2 /\
     calib_points s2 = [sample p1; sample p2] /\
     prompt s2 = Ok (Some "Bottom-Right"%string)) /\
    (calibrating s3 = true /\ calib_step s3 = 3 /\
     calib_points s3 = [sample p1; sample p2; sample p3] /\
     prompt s3 = Ok (Some "Bottom-Left"%string)) /\
    (calibrating s4 = false /\
     calib_points s4 = [sample p1; sample p2; sample p3; sample p4] /\
     prompt s4 = Ok None) /\
    (forall p5, handle_event p5 s4 (KEYDOWN K_SPACE) = Ok s4) /\
    (forall trace,
        exists st,
          run st0 trace = Ok st /\
          (calibrating st = true ->
           List.length (calib_points st) = calib_step st)).
Proof.
  intros Idle Empty.
  do 5 eexists.
  repeat match goal with |- (run _ _ = _) /\ _ => split; [reflexivity|] end.
  cbn [calibrating calib_step calib_points prompt steps nth_error].
  repeat match goal with |- (_ /\ _ /\ _) /\ _ => split; [auto|] end.
  split.
  - intro p5. reflexivity.
  - intro trace.
    assert (I0 : calib_inv st0) by (unfold calib_inv; congruence).
    destruct (run_inv trace st0 I0) as (st & E & I).
    exists st. split; [exact E|]. intro C. now destruct (I C).
Qed.

Lemma calibration_cycle_witness :
  calibrating init_state = false /\
  calib_points init_state = [] /\
  exists s4,
    run init_state
        [start scenario_pose; capture pose_TL; capture pose_TR;
         capture pose_BR; capture pose_BL] = Ok s4 /\
    calibrating s4 = false /\
    calib_points s4 = scenario_table.
Proof.
  split; [reflexivity|]. split; [reflexivity|].
  destruct (calibration_cycle init_state scenario_pose
              pose_TL pose_TR pose_BR pose_BL eq_refl eq_refl)
    as (s0 & s1 & s2 & s3 & s4 & _ & _ & _ & _ & E & _ & _ & _ & _ & F & _).
  exists s4. split; [exact E|]. split; apply F.
Defined.

(** C7.  A start received while calibrating, with one to three samples
    already stored, resets the step to 0 and empties the sample list;
    afterwards, whatever follows without a further start, the table is made
    of the first four captures that come after the restart, and the cycle
    is complete as soon as there are four of them. *)
Theorem restart_discards_partial (st : State) (p0 : Pose R)
        (trace : list (Pose R * event)) :
  calibrating st = true ->
  1 <= List.length (calib_points st) <= 3 ->
  no_start trace ->
  4 <= List.length (captures trace) ->
  exists s0 s4,
    handle_event p0 st (KEYDOWN K_c) = Ok s0 /\
    calibrating s0 = true /\ calib_step s0 = 0 /\ calib_points s0 = [] /\
    run st (start p0 :: trace) = Ok s4 /\
    calibrating s4 = false /\
    calib_points s4 = firstn 4 (captures trace) /\
    List.length (calib_points s4) = 4.
Proof.
  intros C Partial N Four.
  destruct (start_step p0 st) as (s0 & E0 & C0 & S0 & P0).
  assert (I0 : calib_inv s0) by (unfold calib_inv; rewrite S0, P0; cbn; lia).
  destruct (run_calibrating_no_start trace s0 C0 I0 N) as (s4 & E4 & P4 & C4).
  rewrite P0 in P4, C4. cbn [app] in P4, C4.
  exists s0, s4. rewrite run_cons. unfold start at 1 2. cbn [fst snd].
  rewrite E0. cbn [bind].
  repeat split; try assumption; try reflexivity.
  - rewrite C4. apply Nat.ltb_ge. exact Four.
  - rewrite P4, length_firstn. lia.
Qed.

Lemma restart_discards_partial_witness :
  exists s4,
    run partial_state
        [start scenario_pose; capture pose_TL; capture pose_TR;
         (scenario_pose, OTHER); capture pose_BR; capture pose_BL] = Ok s4 /\
    calibrating s4 = false /\
    calib_points s4 = scenario_table.
Proof.
  destruct (restart_discards_partial
              partial_state scenario_pose
              [capture pose_TL; capture pose_TR; (scenario_pose, OTHER);
               capture pose_BR; capture pose_BL])
    as (s0 & s4 & _ & _ & _ & _ & E & C & P & _).
  - reflexivity.
  - cbn. lia.
  - reflexivity.
  - cbn. lia.
  - exists s4. split; [exact E|]. split; [exact C | exact P].
Defined.

End Calibration.

(** ** Projection *)

Section Projection.

Local Open Scope R_scope.

Lemma pydiv_ok (a b : R) : b <> 0 -> pydiv a b = Ok (a / b).
Proof.
  intro Nz. unfold pydiv. destruct (Req_dec_T b 0); [contradiction|reflexivity].
Qed.


(** The projection is defined exactly when the depth is not [-400]. *)
Lemma project_3d_point_ok (x y z width height scale : R) :
  z + 400 <> 0 ->
  project_3d_point x y z width height scale =
  Ok (py_int (x * (300 / (z + 400)) * scale + width / 2),
      py_int (- y * (300 / (z + 400)) * scale + height / 2)).
Proof.
  intro Nz. unfold project_3d_point. now rewrite (pydiv_ok _ _ Nz).
Qed.


(** On integer viewport sizes, as in the configuration: pixel
    [(640, 360)]. *)
Lemma py_int_IZR (n : Z) : py_int (IZR n) = n.
Proof.
  unfold py_int. destruct (Rle_dec 0 (IZR n)).
  - apply ZfloorZ.
  - unfold Zceil. rewrite <- opp_IZR, ZfloorZ. lia.
Qed.

Lemma project_origin_window (scale : R) :
  project_3d_point 0 0 0 (IZR WINDOW_WIDTH) (IZR WINDOW_HEIGHT) scale =
  Ok (640%Z, 360%Z).
Proof.
  rewrite project_3d_point_ok by lra.
  unfold WINDOW_WIDTH, WINDOW_HEIGHT.
  replace (0 * (300 / (0 + 400)) * scale + 1280 / 2) with (IZR 640) by field.
  replace (- 0 * (300 / (0 + 400)) * scale + 720 / 2) with (IZR 360) by field.
  now rewrite !py_int_IZR.
Qed.

End Projection.

(** ** The gaze mapper *)

Section GazeMapper.

Local Open Scope R_scope.


Lemma ratio_y_total (tl tr br bl : R * R) (pitch : R) :
  exists r, ratio_y tl tr br bl pitch = Ok r.
Proof.
  unfold ratio_y.
  destruct (Req_dec_T ((snd br + snd bl) / 2 - (snd tl + snd tr) / 2) 0)
    as [Z|Nz].
  - eauto.
  - rewrite (pydiv_ok _ _ Nz). eauto.
Qed.

Lemma ratio_x_degenerate (tl tr br bl : R * R) (yaw : R) :
  (fst tr + fst br) / 2 - (fst tl + fst bl) / 2 = 0 ->
  ratio_x tl tr br bl yaw = Ok (1 / 2).
Proof.
  intro Z. unfold ratio_x.
  destruct (Req_dec_T ((fst tr + fst br) / 2 - (fst tl + fst bl) / 2) 0);
    [reflexivity | contradiction].
Qed.

Lemma ratio_y_degenerate (tl tr br bl : R * R) (pitch : R) :
  (snd br + snd bl) / 2 - (snd tl + snd tr) / 2 = 0 ->
  ratio_y tl tr br bl pitch = Ok (1 / 2).
Proof.
  intro Z. unfold ratio_y.
  destruct (Req_dec_T ((snd br + snd bl) / 2 - (snd tl + snd tr) / 2) 0);
    [reflexivity | contradiction].
Qed.

Lemma ratio_x_regular (tl tr br bl : R * R) (yaw : R) :
  (fst tr + fst br) / 2 - (fst tl + fst bl) / 2 <> 0 ->
  ratio_x tl tr br bl yaw =
  Ok ((yaw - (fst tl + fst bl) / 2) /
      ((fst tr + fst br) / 2 - (fst tl + fst bl) / 2)).
Proof.
  intro Nz. unfold ratio_x.
  destruct (Req_dec_T ((fst tr + fst br) / 2 - (fst tl + fst bl) / 2) 0);
    [contradiction | now apply pydiv_ok].
Qed.

Lemma ratio_y_regular (tl tr br bl : R * R) (pitch : R) :
  (snd br + snd bl) / 2 - (snd tl + snd tr) / 2 <> 0 ->
  ratio_y tl tr br bl pitch =
  Ok ((pitch - (snd tl + snd tr) / 2) /
      ((snd br + snd bl) / 2 - (snd tl + snd tr) / 2)).
Proof.
  intro Nz. unfold ratio_y.
  destruct (Req_dec_T ((snd br + snd bl) / 2 - (snd tl + snd tr) / 2) 0);
    [contradiction | now apply pydiv_ok].
Qed.







(** The alignment is also necessary: a table that maps its Top-Left sample
    to [(0, 0)] and its Bottom-Right sample to [(1, 1)] is aligned and not
    degenerate. *)
Lemma reproduced_corners_aligned (tl tr br bl : R * R) :
  corner_ratios [tl; tr; br; bl] (fst tl) (snd tl) = Ok (Some (0, 0)) ->
  corner_ratios [tl; tr; br; bl] (fst br) (snd br) = Ok (Some (1, 1)) ->
  fst tl = fst bl /\ fst tr = fst br /\ fst tl <> fst tr /\
  snd tl = snd tr /\ snd br = snd bl /\ snd tl <> snd br.
Proof.
  cbn [corner_ratios]. intros H0 H1.
  destruct (Req_dec_T ((fst tr + fst br) / 2 - (fst tl + fst bl) / 2) 0)
    as [Zx|Dx].
  { rewrite (ratio_x_degenerate _ _ _ _ _ Zx) in H0.
    destruct (ratio_y_total tl tr br bl (snd tl)) as [ry Ey].
    rewrite Ey in H0. cbn [bind] in H0. injection H0 as Hx _. lra. }
  destruct (Req_dec_T ((snd br + snd bl) / 2 - (snd tl + snd tr) / 2) 0)
    as [Zy|Dy].
  { rewrite (ratio_x_regular _ _ _ _ _ Dx) in H0.
    rewrite (ratio_y_degenerate _ _ _ _ _ Zy) in H0.
    cbn [bind] in H0. injection H0 as _ Hy. lra. }
  rewrite (ratio_x_regular _ _ _ _ _ Dx), (ratio_y_regular _ _ _ _ _ Dy)
    in H0.
  rewrite (ratio_x_regular _ _ _ _ _ Dx), (ratio_y_regular _ _ _ _ _ Dy)
    in H1.
  cbn [bind] in H0, H1.
  injection H0 as X0 Y0. injection H1 as X1 Y1.
  assert (A0 : fst tl - (fst tl + fst bl) / 2 = 0).
  { apply (Rmult_eq_compat_r ((fst tr + fst br) / 2 - (fst tl + fst bl) / 2))
      in X0.
    unfold Rdiv in X0 at 1. rewrite Rmult_assoc, Rinv_l, Rmult_1_r in X0
      by assumption. lra. }
  assert (A1 : fst br - (fst tl + fst bl) / 2 =
               (fst tr + fst br) / 2 - (fst tl + fst bl) / 2).
  { apply (Rmult_eq_compat_r ((fst tr + fst br) / 2 - (fst tl + fst bl) / 2))
      in X1.
    unfold Rdiv in X1 at 1. rewrite Rmult_assoc, Rinv_l, Rmult_1_r in X1
      by assumption. lra. }
  assert (B0 : snd tl - (snd tl + snd tr) / 2 = 0).
  { apply (Rmult_eq_compat_r ((snd br + snd bl) / 2 - (snd tl + snd tr) / 2))
      in Y0.
    unfold Rdiv in Y0 at 1. rewrite Rmult_assoc, Rinv_l, Rmult_1_r in Y0
      by assumption. lra. }
  assert (B1 : snd br - (snd tl + snd tr) / 2 =
               (snd br + snd bl) / 2 - (snd tl + snd tr) / 2).
  { apply (Rmult_eq_compat_r ((snd br + snd bl) / 2 - (snd tl + snd tr) / 2))
      in Y1.
    unfold Rdiv in Y1 at 1. rewrite Rmult_assoc, Rinv_l, Rmult_1_r in Y1
      by assumption. lra. }
  repeat split; lra.
Qed.

(** The end-to-end scenario: yaw 10 and pitch -5 on the symmetric table
    give the ratios 0.75 and 0.375, drawn at pixel [(960, 270)]. *)
Lemma scenario_ratios :
  corner_ratios scenario_table 10 (-5) = Ok (Some (3 / 4, 3 / 8)).
Proof.
  unfold scenario_table. cbn [corner_ratios].
  rewrite ratio_x_regular by (cbn [fst snd]; lra).
  rewrite ratio_y_regular by (cbn [fst snd]; lra).
  cbn [bind fst snd]. do 3 f_equal; field.
Qed.

Lemma scenario_pixel :
  corner_gaze scenario_table (pose_yaw scenario_pose)
              (pose_pitch scenario_pose) = Ok (Some (960%Z, 270%Z)).
Proof.
  unfold corner_gaze. cbn [scenario_pose pose_yaw pose_pitch].
  rewrite scenario_ratios. cbn [bind].
  unfold WINDOW_WIDTH, WINDOW_HEIGHT.
  replace (3 / 4 * 1280) with (IZR 960) by field.
  replace (3 / 8 * 720) with (IZR 270) by field.
  now rewrite !py_int_IZR.
Qed.

(** C9.  Two poses with the same yaw and the same pitch get the same
    gaze, coarse and interpolated, in the same calibration state, and
    leave the same calibration state behind on every event: [x], [y], [z]
    and [roll] reach neither the gaze computation nor the table it
    reads. *)
Theorem gaze_depends_on_yaw_pitch_only (st : State) (p q : Pose R) :
  pose_yaw p = pose_yaw q ->
  pose_pitch p = pose_pitch q ->
  gaze_dot st p = gaze_dot st q /\
  (forall ev, handle_event p st ev = handle_event q st ev).
Proof.
  intros Y P. split.
  - unfold gaze_dot. now rewrite Y, P.
  - intro ev. unfold handle_event. now rewrite Y, P.
Qed.

Lemma gaze_depends_on_yaw_pitch_only_witness :
  gaze_dot scenario_state scenario_pose
  = gaze_dot scenario_state (mkPose 3 4 5 10 (-5) 6).
Proof.
  apply (gaze_depends_on_yaw_pitch_only scenario_state scenario_pose
                                        (mkPose 3 4 5 10 (-5) 6));
    reflexivity.
Defined.

End GazeMapper.

(** ** Rotation *)

Section Rotation.

Local Open Scope R_scope.

Lemma radians_0 : radians 0 = 0.
Proof. unfold radians. ring. Qed.

Lemma radians_90 : radians 90 = PI / 2.
Proof. unfold radians. field. Qed.

Lemma rot2_0 (ab : R * R) : rot2 0 ab = ab.
Proof.
  destruct ab as [a b]. unfold rot2. rewrite radians_0, cos_0, sin_0.
  f_equal; ring.
Qed.

Lemma rot2_90 (a b : R) : rot2 90 (a, b) = (- b, a).
Proof.
  unfold rot2. rewrite radians_90, cos_PI2, sin_PI2. f_equal; ring.
Qed.

Lemma yaw_step_0 (p : R * R * R) : yaw_step 0 p = p.
Proof. destruct p as [[x y] z]. unfold yaw_step. now rewrite rot2_0. Qed.

Lemma pitch_step_0 (p : R * R * R) : pitch_step 0 p = p.
Proof. destruct p as [[x y] z]. unfold pitch_step. now rewrite rot2_0. Qed.

Lemma roll_step_0 (p : R * R * R) : roll_step 0 p = p.
Proof. destruct p as [[x y] z]. unfold roll_step. now rewrite rot2_0. Qed.

(** [rotate_point] is the three planar rotations in the order yaw, pitch,
    roll, each working on the output of the one before. *)
Lemma Rotate_steps (p : R * R * R) (pitch yaw roll : R) :
  Rotate p pitch yaw roll = roll_step roll (pitch_step pitch (yaw_step yaw p)).
Proof. destruct p as [[x y] z]. reflexivity. Qed.

Lemma Rotate_yaw_only (p : R * R * R) (yaw : R) :
  Rotate p 0 yaw 0 = yaw_step yaw p.
Proof. now rewrite Rotate_steps, pitch_step_0, roll_step_0. Qed.

Lemma Rotate_pitch_only (p : R * R * R) (pitch : R) :
  Rotate p pitch 0 0 = pitch_step pitch p.
Proof. now rewrite Rotate_steps, yaw_step_0, roll_step_0. Qed.

Lemma Rotate_roll_only (p : R * R * R) (roll : R) :
  Rotate p 0 0 roll = roll_step roll p.
Proof. now rewrite Rotate_steps, yaw_step_0, pitch_step_0. Qed.

Lemma triple_eq (a b c a' b' c' : R) :
  a = a' -> b = b' -> c = c' -> (a, b, c) = (a', b', c').
Proof. now intros -> -> ->. Qed.

Ltac quarter_turn :=
  repeat first [rewrite rot2_90 | progress cbv beta iota zeta].

Lemma yaw_then_pitch : pitch_step 90 (yaw_step 90 (1, 0, 0)) = (0, -1, 0).
Proof.
  unfold yaw_step, pitch_step. quarter_turn. apply triple_eq; ring.
Qed.

Lemma pitch_then_yaw : yaw_step 90 (pitch_step 90 (1, 0, 0)) = (0, 0, 1).
Proof.
  unfold yaw_step, pitch_step. quarter_turn. apply triple_eq; ring.
Qed.

(** Composing the single-angle rotations in the order pitch, yaw, roll is
    not [rotate_point]: at [(1, 0, 0)] with pitch 90, yaw 90 and roll 0 the
    former gives [(0, 0, 1)] and the latter [(0, -1, 0)]. *)
Lemma pitch_first_differs :
  Rotate (Rotate (Rotate (1, 0, 0) 90 0 0) 0 90 0) 0 0 0 = (0, 0, 1) /\
  Rotate (1, 0, 0) 90 90 0 = (0, -1, 0) /\
  Rotate (Rotate (Rotate (1, 0, 0) 90 0 0) 0 90 0) 0 0 0
    <> Rotate (1, 0, 0) 90 90 0.
Proof.
  assert (A : Rotate (Rotate (Rotate (1, 0, 0) 90 0 0) 0 90 0) 0 0 0
              = (0, 0, 1)).
  { rewrite Rotate_roll_only, roll_step_0, Rotate_yaw_only, Rotate_pitch_only.
    apply pitch_then_yaw. }
  assert (B : Rotate (1, 0, 0) 90 90 0 = (0, -1, 0)).
  { rewrite Rotate_steps, roll_step_0. apply yaw_then_pitch. }
  repeat split; try assumption.
  rewrite A, B. intro E. injection E; intros; lra.
Qed.

(** C6 (amended).  [Rotate(p, pitch, yaw, roll)] is the planar rotation by
    yaw of [(x, z)], then by pitch of [(y, z)], then by roll of [(x, y)],
    each by the angle converted to radians; equivalently
    [Rotate(Rotate(Rotate(p, 0,yaw,0), pitch,0,0), 0,0,roll)] equals
    [Rotate(p, pitch, yaw, roll)] for every point and all angles; and on
    [(1, 0, 0)] a yaw of 90 followed by a pitch of 90 differs from the pitch
    followed by the yaw. *)
Theorem rotate_is_yaw_pitch_roll (p : R * R * R) (pitch yaw roll : R) :
  Rotate p pitch yaw roll
    = roll_step roll (pitch_step pitch (yaw_step yaw p)) /\
  Rotate (Rotate (Rotate p 0 yaw 0) pitch 0 0) 0 0 roll
    = Rotate p pitch yaw roll /\
  Rotate (Rotate (1, 0, 0) 0 90 0) 90 0 0
    <> Rotate (Rotate (1, 0, 0) 90 0 0) 0 90 0.
Proof.
  split; [apply Rotate_steps|]. split.
  - now rewrite Rotate_roll_only, Rotate_pitch_only, Rotate_yaw_only,
      Rotate_steps.
  - rewrite !Rotate_yaw_only, !Rotate_pitch_only.
    rewrite yaw_then_pitch, pitch_then_yaw.
    intro E. injection E; intros; lra.
Qed.

(** *** Norms *)

Lemma rot2_norm (theta a b : R) :
  fst (rot2 theta (a, b)) * fst (rot2 theta (a, b)) +
  snd (rot2 theta (a, b)) * snd (rot2 theta (a, b)) = a * a + b * b.
Proof.
  unfold rot2. cbn [fst snd].
  pose proof (sin2_cos2 (radians theta)) as T. unfold Rsqr in T.
  set (c := cos (radians theta)) in *. set (s := sin (radians theta)) in *.
  replace ((a * c - b * s) * (a * c - b * s) +
           (a * s + b * c) * (a * s + b * c))
    with ((a * a + b * b) * (s * s + c * c)) by ring.
  rewrite T. ring.
Qed.

(** A rotation keeps the squared norm of the point. *)
Lemma rotate_point_norm (x y z pitch yaw roll : R) :
  let '(rx, ry, rz) := rotate_point x y z pitch yaw roll in
  rx * rx + ry * ry + rz * rz = x * x + y * y + z * z.
Proof.
  change (rotate_point x y z pitch yaw roll)
    with (Rotate (x, y, z) pitch yaw roll).
  rewrite Rotate_steps. unfold yaw_step.
  pose proof (rot2_norm yaw x z) as Hy.
  destruct (rot2 yaw (x, z)) as [x1 z1]. cbn [fst snd] in Hy.
  unfold pitch_step.
  pose proof (rot2_norm pitch y z1) as Hp.
  destruct (rot2 pitch (y, z1)) as [y2 z2]. cbn [fst snd] in Hp.
  unfold roll_step.
  pose proof (rot2_norm roll x1 y2) as Hr.
  destruct (rot2 roll (x1, y2)) as [x3 y3]. cbn [fst snd] in Hr.
  lra.
Qed.

Lemma sqrt3_bounds : 0 <= sqrt 3 <= 2 /\ sqrt 3 * sqrt 3 = 3.
Proof.
  assert (S : sqrt 3 * sqrt 3 = 3) by (apply sqrt_sqrt; lra).
  pose proof (sqrt_pos 3). repeat split; try assumption. nra.
Qed.

Lemma square_le_3 (r : R) : r * r <= 3 -> - sqrt 3 <= r <= sqrt 3.
Proof.
  destruct sqrt3_bounds as [[P _] S]. intro B. split; nra.
Qed.

Lemma vertex_norm (v : R * R * R) :
  In v vertices ->
  let '(x, y, z) := v in x * x + y * y + z * z = 3.
Proof.
  unfold vertices. cbn [In]. intro H.
  repeat (destruct H as [<-|H]; [ring|]). contradiction.
Qed.

(** C10.  For every pose and every vertex of the cube, the rotated depth
    [rz] lies in [[-sqrt 3, sqrt 3]], the depth after the translation is
    [rz - 5], the denominator [(rz - 5) + 400] of the projection is
    positive, and the projection of the vertex raises nothing; so the eight
    projected points of a frame are always computed. *)
Theorem render_never_divides_by_zero (pose : Pose R) (v : R * R * R) :
  In v vertices ->
  (exists rx ry rz,
      rotate_point (fst (fst v)) (snd (fst v)) (snd v)
                   (pose_pitch pose) (pose_yaw pose) (pose_roll pose)
      = (rx, ry, rz) /\
      - sqrt 3 <= rz <= sqrt 3 /\
      0 < (rz - 5) + 400 /\
      transform_vertex pose v =
      project_3d_point (rx + pose_x pose / 10) (ry + pose_y pose / 10)
                       (rz - 5) (IZR WINDOW_WIDTH) (IZR WINDOW_HEIGHT)
                       (IZR BOX_SCALE) /\
      exists pt, transform_vertex pose v = Ok pt) /\
  (exists pts, proj_points pose = Ok pts /\ List.length pts = 8%nat).
Proof.
  assert (V : forall w, In w vertices ->
              exists rx ry rz,
                rotate_point (fst (fst w)) (snd (fst w)) (snd w)
                   (pose_pitch pose) (pose_yaw pose) (pose_roll pose)
                = (rx, ry, rz) /\
                - sqrt 3 <= rz <= sqrt 3 /\
                0 < (rz - 5) + 400 /\
                transform_vertex pose w =
                project_3d_point (rx + pose_x pose / 10)
                                 (ry + pose_y pose / 10)
                                 (rz - 5) (IZR WINDOW_WIDTH)
                                 (IZR WINDOW_HEIGHT) (IZR BOX_SCALE) /\
                exists pt, transform_vertex pose w = Ok pt).
  { intros [[x y] z] Hw. cbn [fst snd].
    pose proof (vertex_norm (x, y, z) Hw) as N.
    pose proof (rotate_point_norm x y z (pose_pitch pose) (pose_yaw pose)
                                  (pose_roll pose)) as Rn.
    unfold transform_vertex.
    destruct (rotate_point x y z (pose_pitch pose) (pose_yaw pose)
                           (pose_roll pose)) as [[rx ry] rz].
    assert (B : - sqrt 3 <= rz <= sqrt 3) by (apply square_le_3; nra).
    destruct sqrt3_bounds as [[_ S2] _].
    assert (D : 0 < rz - 5 + 400) by lra.
    exists rx, ry, rz. repeat split; try apply B; try exact D.
    rewrite project_3d_point_ok by lra. eauto. }
  intro Hv. split; [now apply V|].
  unfold proj_points.
  assert (M : forall l, (forall w, In w l -> In w vertices) ->
              exists pts, mapM (transform_vertex pose) l = Ok pts /\
                          List.length pts = List.length l).
  { induction l as [|w l IH]; intro Sub; cbn [mapM].
    - exists []. auto.
    - destruct (V w (Sub w (or_introl eq_refl)))
        as (rx & ry & rz & _ & _ & _ & _ & pt & E).
      destruct IH as (pts & Ep & Lp); [intros u Hu; apply Sub; now right|].
      rewrite E, Ep. cbn [bind]. exists (pt :: pts). cbn [List.length].
      auto. }
  destruct (M vertices (fun w H => H)) as (pts & E & L).
  exists pts. split; [exact E|]. rewrite L. reflexivity.
Qed.

Lemma render_never_divides_by_zero_witness :
  exists pts, proj_points scenario_pose = Ok pts /\ List.length pts = 8%nat.
Proof.
  apply (render_never_divides_by_zero scenario_pose (1, 1, 1)).
  unfold vertices. cbn [In]. do 6 right. left. reflexivity.
Defined.

End Rotation.

(** ** The scenario, end to end *)

Section Scenario.

Local Open Scope R_scope.

Lemma binary64_value_0 : binary64_value 0%N = Some 0.
Proof.
  unfold binary64_value. cbn [N.testbit N.div N.modulo N.eqb].
  change (0 / 2 ^ 52)%N with 0%N. change (0 mod 2 ^ 11)%N with 0%N.
  change (0 mod 2 ^ 52)%N with 0%N. cbn [N.eqb Z.of_N].
  f_equal. ring.
Qed.

Lemma binary64_value_10 : binary64_value 4621819117588971520%N = Some 10.
Proof.
  unfold binary64_value.
  replace (N.testbit 4621819117588971520%N 63) with false
    by (vm_compute; reflexivity).
  replace ((4621819117588971520 / 2 ^ 52) mod 2 ^ 11)%N with 1026%N
    by (vm_compute; reflexivity).
  replace (4621819117588971520 mod 2 ^ 52)%N with (2 ^ 50)%N
    by (vm_compute; reflexivity).
  cbn [N.eqb Pos.eqb]. f_equal.
  replace (Z.of_N 1026 - 1075)%Z with (-49)%Z by reflexivity.
  replace (Z.of_N (2 ^ 52 + 2 ^ 50)) with 5629499534213120%Z by reflexivity.
  change (powerRZ 2 (-49)) with (/ (2 ^ 49)).
  rewrite pow_IZR.
  replace (2 ^ Z.of_nat 49)%Z with 562949953421312%Z by reflexivity.
  lra.
Qed.

Lemma binary64_value_minus_5 :
  binary64_value 13840687554816376832%N = Some (-5).
Proof.
  unfold binary64_value.
  replace (N.testbit 13840687554816376832%N 63) with true
    by (vm_compute; reflexivity).
  replace ((13840687554816376832 / 2 ^ 52) mod 2 ^ 11)%N with 1025%N
    by (vm_compute; reflexivity).
  replace (13840687554816376832 mod 2 ^ 52)%N with (2 ^ 50)%N
    by (vm_compute; reflexivity).
  cbn [N.eqb Pos.eqb]. f_equal.
  replace (Z.of_N 1025 - 1075)%Z with (-50)%Z by reflexivity.
  replace (Z.of_N (2 ^ 52 + 2 ^ 50)) with 5629499534213120%Z by reflexivity.
  change (powerRZ 2 (-50)) with (/ (2 ^ 50)).
  rewrite pow_IZR.
  replace (2 ^ Z.of_nat 50)%Z with 1125899906842624%Z by reflexivity.
  lra.
Qed.

(** The datagram of the scenario is decoded to the pose
    [x=0, y=0, z=0, yaw=10, pitch=-5, roll=0]. *)
Lemma scenario_decoded :
  Wire.decode_datagram Wire.Little zero_bits scenario_payload
    = Ok scenario_bits /\
  pose_value scenario_bits = Some scenario_pose.
Proof.
  split.
  - vm_compute. reflexivity.
  - unfold pose_value, scenario_bits.
    cbn [pose_x pose_y pose_z pose_yaw pose_pitch pose_roll].
    now rewrite binary64_value_0, binary64_value_10, binary64_value_minus_5.
Qed.

(** The calibration on the four symmetric corners. *)
Lemma scenario_calibrated :
  run init_state [start scenario_pose; capture pose_TL; capture pose_TR;
                  capture pose_BR; capture pose_BL] = Ok scenario_state.
Proof.
  change (Ok (mkState true false 4 scenario_table
                      (Rmin (Rmin (Rmin (-20) 20) 20) (-20))
                      (Rmax (Rmax (Rmax (-20) 20) 20) (-20))
                      (Rmin (Rmin (Rmin (-20) (-20)) 20) 20)
                      (Rmax (Rmax (Rmax (-20) (-20)) 20) 20))
          = Ok scenario_state).
  unfold scenario_state.
  repeat match goal with
         | |- context [Rmin ?a ?b] =>
             first [ rewrite (Rmin_left a b) by lra
                   | rewrite (Rmin_right a b) by lra ]
         | |- context [Rmax ?a ?b] =>
             first [ rewrite (Rmax_left a b) by lra
                   | rewrite (Rmax_right a b) by lra ]
         end.
  reflexivity.
Qed.

(** The gaze of the scenario pose in that state: both estimates are
    [(960, 270)], that is [(0.75 * W, 0.375 * H)]. *)
Lemma scenario_gaze :
  gaze_dot scenario_state scenario_pose
  = Ok (Some (mkGaze (960%Z, 270%Z) (Some (960%Z, 270%Z)))).
Proof.
  unfold gaze_dot.
  cbn [scenario_state calibrating negb calib_points].
  pose proof scenario_pixel as P. rewrite P.
  unfold coarse_gaze, scenario_state.
  cbn [min_yaw max_yaw min_pitch max_pitch scenario_pose pose_yaw pose_pitch].
  destruct (Req_dec_T (20 - -20) 0) as [Z|_]; [lra|].
  cbv beta iota zeta.
  rewrite !pydiv_ok by lra. cbn [bind].
  unfold WINDOW_WIDTH, WINDOW_HEIGHT.
  replace ((10 - -20) / (20 - -20) * 1280) with (IZR 960) by field.
  replace ((-5 - -20) / (20 - -20) * 720) with (IZR 270) by field.
  rewrite !py_int_IZR. reflexivity.
Qed.

End Scenario.

(** * Further facts *)

(** ** The drain loop *)

Module DrainFacts.
Import Wire WireFacts.

Lemma foldM_app {S E : Type} (f : S -> E -> result S) (a b : list E) :
  forall s, foldM f s (a ++ b) = (s' <- foldM f s a ;; foldM f s' b).
Proof.
  induction a as [|e a IH]; intro s; cbn [app foldM bind].
  - reflexivity.
  - destruct (f s e) as [s1|x]; cbn [bind]; [apply IH | reflexivity].
Qed.

Lemma unpack_48 o (d : list byte) :
  List.length d = 48%nat -> exists p, unpack_dddddd o d = Ok p.
Proof. intro L. unfold unpack_dddddd. rewrite L. cbn [Nat.eqb]. eauto. Qed.

(** One datagram: the pose is kept, or replaced by the decoding of a
    48-byte payload. *)
Lemma decode_datagram_cases o pose (d : list byte) :
  (List.length d <> 48%nat /\ decode_datagram o pose d = Ok pose) \/
  (List.length d = 48%nat /\
   exists p, unpack_dddddd o d = Ok p /\ decode_datagram o pose d = Ok p).
Proof.
  destruct (Nat.eq_dec (List.length d) 48) as [L|L].
  - right. split; [exact L|].
    destruct (unpack_48 o d L) as [p U]. exists p. split; [exact U|].
    now rewrite (decode_48 o pose d L).
  - left. split; [exact L|].
    unfold decode_datagram. now rewrite (guard_other_length d L).
Qed.

Lemma drain_total o (pending : list (list byte)) :
  forall pose, exists p, drain o pose pending = Ok p.
Proof.
  unfold drain.
  induction pending as [|d pending IH]; intro pose; cbn [foldM].
  - eauto.
  - destruct (decode_datagram_cases o pose d) as [[_ E]|[_ (q & _ & E)]];
      rewrite E; cbn [bind]; apply IH.
Qed.

(** X2.  Whatever is pending, the drain loop raises nothing, and the pose
    it leaves is the one it started with or the decoding of one of the
    pending 48-byte datagrams. *)
Theorem drain_never_raises o (pose : Pose double)
        (pending : list (list byte)) :
  exists p,
    drain o pose pending = Ok p /\
    (p = pose \/
     exists d, In d pending /\ List.length d = 48%nat /\
               unpack_dddddd o d = Ok p).
Proof.
  unfold drain. revert pose.
  induction pending as [|d pending IH]; intro pose; cbn [foldM].
  - exists pose. auto.
  - destruct (decode_datagram_cases o pose d) as [[L E]|[L (q & U & E)]];
      rewrite E; cbn [bind].
    + destruct (IH pose) as (p & D & W). exists p. split; [exact D|].
      destruct W as [->|(d' & I & L' & U')]; [now left|].
      right. exists d'. cbn [In]. auto.
    + destruct (IH q) as (p & D & W). exists p. split; [exact D|].
      right. destruct W as [->|(d' & I & L' & U')].
      * exists d. cbn [In]. auto.
      * exists d'. cbn [In]. auto.
Qed.

(** X1.  The newest valid datagram wins: after a 48-byte datagram followed
    only by datagrams of other lengths, the pose is the decoding of that
    datagram, whatever the pose was and whatever was pending before. *)
Theorem drain_newest_wins o (pose : Pose double)
        (older : list (list byte)) (d : list byte)
        (newer : list (list byte)) :
  List.length d = 48%nat ->
  Forall (fun payload => List.length payload <> 48%nat) newer ->
  drain o pose (older ++ d :: newer) = unpack_dddddd o d.
Proof.
  intros L F. unfold drain. rewrite foldM_app.
  destruct (drain_total o older pose) as (p & D).
  unfold drain in D. rewrite D. cbn [bind foldM].
  rewrite (decode_48 o p d L).
  destruct (unpack_48 o d L) as [q U]. rewrite U. cbn [bind].
  apply (drain_other_lengths o newer q F).
Qed.

Lemma drain_newest_wins_witness :
  drain Little zero_bits [[x01]; scenario_payload; [x02; x03]]
  = Ok scenario_bits.
Proof.
  assert (U : unpack_dddddd Little scenario_payload = Ok scenario_bits)
    by (vm_compute; reflexivity).
  rewrite <- U.
  apply (drain_newest_wins Little zero_bits [[x01]] scenario_payload
                           [[x02; x03]]).
  - reflexivity.
  - repeat constructor; cbn; lia.
Defined.

End DrainFacts.

(** ** More on the 3D helpers *)

Section Geometry.

Local Open Scope R_scope.

(** [int] keeps the order. *)
Lemma py_int_le (a b : R) : a <= b -> (py_int a <= py_int b)%Z.
Proof.
  intro L. unfold py_int.
  destruct (Rle_dec 0 a) as [Pa|Na], (Rle_dec 0 b) as [Pb|Nb].
  - now apply Zfloor_le.
  - lra.
  - apply Z.le_trans with 0%Z.
    + pose proof (Zceil_bound a) as [B _].
      assert (IZR (Zceil a) < 1) by lra.
      assert (Zceil a < 1)%Z by now apply lt_IZR. lia.
    + now apply Zfloor_lub.
  - now apply Zceil_le.
Qed.



(** X4.  In front of the projection plane ([z > -400]) and with a
    non-negative scale, the projection keeps the left-to-right order of
    the points and reverses their bottom-to-top order: screen y grows
    downwards. *)
Theorem project_keeps_x_flips_y (x1 y1 x2 y2 z width height scale : R)
        (px1 py1 px2 py2 : Z) :
  -400 < z -> 0 <= scale ->
  x1 <= x2 -> y1 <= y2 ->
  project_3d_point x1 y1 z width height scale = Ok (px1, py1) ->
  project_3d_point x2 y2 z width height scale = Ok (px2, py2) ->
  (px1 <= px2)%Z /\ (py2 <= py1)%Z.
Proof.
  intros Dz Sc Lx Ly.
  rewrite !project_3d_point_ok by lra.
  intros E1 E2. injection E1 as <- <-. injection E2 as <- <-.
  assert (F : 0 < 300 / (z + 400)) by (apply Rdiv_lt_0_compat; lra).
  set (f := 300 / (z + 400)) in *.
  assert (K : 0 <= f * scale) by (apply Rmult_le_pos; lra).
  split; apply py_int_le.
  - replace (x1 * f * scale) with (x1 * (f * scale)) by ring.
    replace (x2 * f * scale) with (x2 * (f * scale)) by ring.
    nra.
  - replace (- y1 * f * scale) with (- (y1 * (f * scale))) by ring.
    replace (- y2 * f * scale) with (- (y2 * (f * scale))) by ring.
    nra.
Qed.

Lemma project_keeps_x_flips_y_witness :
  exists px1 py1 px2 py2,
    project_3d_point 0 0 0 1280 720 100 = Ok (px1, py1) /\
    project_3d_point 4 4 0 1280 720 100 = Ok (px2, py2) /\
    (px1 <= px2)%Z /\ (py2 <= py1)%Z.
Proof.
  assert (E1 : exists pt, project_3d_point 0 0 0 1280 720 100 = Ok pt)
    by (rewrite project_3d_point_ok by lra; eauto).
  assert (E2 : exists pt, project_3d_point 4 4 0 1280 720 100 = Ok pt)
    by (rewrite project_3d_point_ok by lra; eauto).
  destruct E1 as [[px1 py1] E1]. destruct E2 as [[px2 py2] E2].
  exists px1, py1, px2, py2. split; [exact E1|]. split; [exact E2|].
  apply (project_keeps_x_flips_y 0 0 4 4 0 1280 720 100 px1 py1 px2 py2);
    try lra; assumption.
Defined.

(** *** The algebra of the rotations *)

Lemma radians_plus (a b : R) : radians (a + b) = radians a + radians b.
Proof. unfold radians. ring. Qed.

Lemma radians_opp (a : R) : radians (- a) = - radians a.
Proof. unfold radians. ring. Qed.


Lemma pair_eq (a b a' b' : R) : a = a' -> b = b' -> (a, b) = (a', b').
Proof. now intros -> ->. Qed.

Lemma rot2_plus (a b : R) (xy : R * R) :
  rot2 b (rot2 a xy) = rot2 (a + b) xy.
Proof.
  destruct xy as [x y]. unfold rot2.
  rewrite radians_plus, cos_plus, sin_plus. apply pair_eq; ring.
Qed.

Lemma rot2_opp (a : R) (xy : R * R) : rot2 (- a) (rot2 a xy) = xy.
Proof.
  rewrite rot2_plus. replace (a + - a) with 0 by ring. apply rot2_0.
Qed.












End Geometry.

(** ** More on the gaze mapper *)

Section GazeMore.

Local Open Scope R_scope.

Lemma py_int_ge (n : Z) (r : R) : IZR n <= r -> (n <= py_int r)%Z.
Proof. intro L. rewrite <- (py_int_IZR n). now apply py_int_le. Qed.

Lemma py_int_le_Z (n : Z) (r : R) : r <= IZR n -> (py_int r <= n)%Z.
Proof. intro L. rewrite <- (py_int_IZR n). now apply py_int_le. Qed.

(** The range the coarse mode divides by: never zero. *)
Lemma coarse_range (lo hi : R) :
  (if Req_dec_T (hi - lo) 0 then 1 else hi - lo) <> 0.
Proof. destruct (Req_dec_T (hi - lo) 0); [lra | assumption]. Qed.

Lemma coarse_range_pos (lo hi : R) :
  lo <= hi -> 0 < (if Req_dec_T (hi - lo) 0 then 1 else hi - lo).
Proof. intro L. destruct (Req_dec_T (hi - lo) 0); lra. Qed.

Lemma coarse_gaze_eq (st : State) (yaw pitch : R) :
  coarse_gaze st yaw pitch =
  Ok (Z.max 0 (Z.min WINDOW_WIDTH
        (py_int ((yaw - min_yaw st) /
                 (if Req_dec_T (max_yaw st - min_yaw st) 0 then 1
                  else max_yaw st - min_yaw st) * IZR WINDOW_WIDTH))),
      Z.max 0 (Z.min WINDOW_HEIGHT
        (py_int ((pitch - min_pitch st) /
                 (if Req_dec_T (max_pitch st - min_pitch st) 0 then 1
                  else max_pitch st - min_pitch st) * IZR WINDOW_HEIGHT)))).
Proof.
  unfold coarse_gaze.
  rewrite (pydiv_ok _ _ (coarse_range (min_yaw st) (max_yaw st))).
  rewrite (pydiv_ok _ _ (coarse_range (min_pitch st) (max_pitch st))).
  reflexivity.
Qed.


(** X10.  With [min_yaw < max_yaw] and [min_pitch < max_pitch] the coarse
    estimate saturates at the borders: a yaw at or below [min_yaw] gives
    [x = 0], a yaw at or above [max_yaw] gives [x = 1280], and likewise
    for the pitch and [y]. *)
Theorem coarse_gaze_saturates (st : State) (yaw pitch : R) (gx gy : Z) :
  min_yaw st < max_yaw st ->
  min_pitch st < max_pitch st ->
  coarse_gaze st yaw pitch = Ok (gx, gy) ->
  (yaw <= min_yaw st -> gx = 0%Z) /\
  (max_yaw st <= yaw -> gx = WINDOW_WIDTH) /\
  (pitch <= min_pitch st -> gy = 0%Z) /\
  (max_pitch st <= pitch -> gy = WINDOW_HEIGHT).
Proof.
  intros Hy Hp. rewrite coarse_gaze_eq.
  destruct (Req_dec_T (max_yaw st - min_yaw st) 0) as [Zy|_]; [lra|].
  destruct (Req_dec_T (max_pitch st - min_pitch st) 0) as [Zp|_]; [lra|].
  intro E. injection E as <- <-.
  unfold WINDOW_WIDTH, WINDOW_HEIGHT.
  assert (Dy : 0 < / (max_yaw st - min_yaw st))
    by (apply Rinv_0_lt_compat; lra).
  assert (Dp : 0 < / (max_pitch st - min_pitch st))
    by (apply Rinv_0_lt_compat; lra).
  assert (Iy : (max_yaw st - min_yaw st) * / (max_yaw st - min_yaw st) = 1)
    by (apply Rinv_r; lra).
  assert (Ip : (max_pitch st - min_pitch st) *
               / (max_pitch st - min_pitch st) = 1)
    by (apply Rinv_r; lra).
  unfold Rdiv.
  repeat split.
  - intro L.
    assert (py_int ((yaw - min_yaw st) * / (max_yaw st - min_yaw st) * 1280)
            <= 0)%Z by (apply py_int_le_Z; nra).
    lia.
  - intro L.
    assert (1280 <=
            py_int ((yaw - min_yaw st) * / (max_yaw st - min_yaw st) * 1280))%Z
      by (apply py_int_ge; nra).
    lia.
  - intro L.
    assert (py_int ((pitch - min_pitch st) *
                    / (max_pitch st - min_pitch st) * 720) <= 0)%Z
      by (apply py_int_le_Z; nra).
    lia.
  - intro L.
    assert (720 <=
            py_int ((pitch - min_pitch st) *
                    / (max_pitch st - min_pitch st) * 720))%Z
      by (apply py_int_ge; nra).
    lia.
Qed.

Lemma coarse_gaze_saturates_witness :
  coarse_gaze init_state (-30) 25 = Ok (0%Z, WINDOW_HEIGHT).
Proof.
  pose proof (coarse_gaze_eq init_state (-30) 25) as E.
  match type of E with
  | _ = Ok (?a, ?b) => set (gx := a) in *; set (gy := b) in *
  end.
  destruct (coarse_gaze_saturates init_state (-30) 25 gx gy)
    as (X0 & _ & _ & Y1); try exact E; try (cbn; lra).
  rewrite E, X0, Y1 by (cbn; lra). reflexivity.
Defined.

(** X11.  With ordered bounds the coarse estimate is monotone: a larger
    yaw never moves the pixel to the left and a larger pitch never moves
    it up. *)
Theorem coarse_gaze_monotone (st : State) (yaw1 pitch1 yaw2 pitch2 : R)
        (g1 g2 : Z * Z) :
  min_yaw st <= max_yaw st ->
  min_pitch st <= max_pitch st ->
  yaw1 <= yaw2 -> pitch1 <= pitch2 ->
  coarse_gaze st yaw1 pitch1 = Ok g1 ->
  coarse_gaze st yaw2 pitch2 = Ok g2 ->
  (fst g1 <= fst g2)%Z /\ (snd g1 <= snd g2)%Z.
Proof.
  intros Hy Hp Ly Lp. rewrite !coarse_gaze_eq.
  pose proof (coarse_range_pos _ _ Hy) as Ry.
  pose proof (coarse_range_pos _ _ Hp) as Rp.
  set (ry := if Req_dec_T (max_yaw st - min_yaw st) 0 then 1
             else max_yaw st - min_yaw st) in *.
  set (rp := if Req_dec_T (max_pitch st - min_pitch st) 0 then 1
             else max_pitch st - min_pitch st) in *.
  intros E1 E2. injection E1 as <-. injection E2 as <-. cbn [fst snd].
  assert (Iy : 0 < / ry) by now apply Rinv_0_lt_compat.
  assert (Ip : 0 < / rp) by now apply Rinv_0_lt_compat.
  assert (Mx : (py_int ((yaw1 - min_yaw st) / ry * IZR WINDOW_WIDTH) <=
                py_int ((yaw2 - min_yaw st) / ry * IZR WINDOW_WIDTH))%Z).
  { apply py_int_le. unfold Rdiv, WINDOW_WIDTH. nra. }
  assert (My : (py_int ((pitch1 - min_pitch st) / rp * IZR WINDOW_HEIGHT) <=
                py_int ((pitch2 - min_pitch st) / rp * IZR WINDOW_HEIGHT))%Z).
  { apply py_int_le. unfold Rdiv, WINDOW_HEIGHT. nra. }
  lia.
Qed.

Lemma coarse_gaze_monotone_witness :
  exists g1 g2,
    coarse_gaze init_state (-5) 0 = Ok g1 /\
    coarse_gaze init_state 10 3 = Ok g2 /\
    (fst g1 <= fst g2)%Z /\ (snd g1 <= snd g2)%Z.
Proof.
  pose proof (coarse_gaze_eq init_state (-5) 0) as E1.
  pose proof (coarse_gaze_eq init_state 10 3) as E2.
  match type of E1 with _ = Ok ?a => set (g1 := a) in * end.
  match type of E2 with _ = Ok ?a => set (g2 := a) in * end.
  exists g1, g2. split; [exact E1|]. split; [exact E2|].
  apply (coarse_gaze_monotone init_state (-5) 0 10 3 g1 g2);
    try exact E1; try exact E2; cbn; lra.
Defined.





End GazeMore.

(** ** More on the calibration and the frame *)

Section Bounds.

Local Open Scope R_scope.

Lemma fold_min_le_init (l : list R) :
  forall a, fold_left Rmin l a <= a.
Proof.
  induction l as [|b l IH]; intro a; cbn [fold_left].
  - lra.
  - apply Rle_trans with (Rmin a b); [apply IH | apply Rmin_l].
Qed.

Lemma fold_min_le (l : list R) :
  forall a x, In x l -> fold_left Rmin l a <= x.
Proof.
  induction l as [|b l IH]; intros a x I; cbn [fold_left].
  - contradiction.
  - destruct I as [->|I].
    + apply Rle_trans with (Rmin a x); [apply fold_min_le_init | apply Rmin_r].
    + now apply IH.
Qed.

Lemma fold_min_in (l : list R) :
  forall a, In (fold_left Rmin l a) (a :: l).
Proof.
  induction l as [|b l IH]; intro a; cbn [fold_left].
  - now left.
  - destruct (IH (Rmin a b)) as [E|I].
    + rewrite <- E. unfold Rmin. destruct (Rle_dec a b); cbn [In]; auto.
    + right. now right.
Qed.

Lemma fold_max_ge_init (l : list R) :
  forall a, a <= fold_left Rmax l a.
Proof.
  induction l as [|b l IH]; intro a; cbn [fold_left].
  - lra.
  - apply Rle_trans with (Rmax a b); [apply Rmax_l | apply IH].
Qed.

Lemma fold_max_ge (l : list R) :
  forall a x, In x l -> x <= fold_left Rmax l a.
Proof.
  induction l as [|b l IH]; intros a x I; cbn [fold_left].
  - contradiction.
  - destruct I as [->|I].
    + apply Rle_trans with (Rmax a x); [apply Rmax_r | apply fold_max_ge_init].
    + now apply IH.
Qed.

Lemma fold_max_in (l : list R) :
  forall a, In (fold_left Rmax l a) (a :: l).
Proof.
  induction l as [|b l IH]; intro a; cbn [fold_left].
  - now left.
  - destruct (IH (Rmax a b)) as [E|I].
    + rewrite <- E. unfold Rmax. destruct (Rle_dec a b); cbn [In]; auto.
    + right. now right.
Qed.

(** [min(l)] is an element of [l] below all the others. *)
Lemma pymin_spec (l : list R) (m : R) :
  pymin l = Ok m -> In m l /\ forall x, In x l -> m <= x.
Proof.
  destruct l as [|a l]; cbn [pymin]; [discriminate|].
  intro E. injection E as <-. split; [apply fold_min_in|].
  intros x [<-|I]; [apply fold_min_le_init | now apply fold_min_le].
Qed.

Lemma pymax_spec (l : list R) (m : R) :
  pymax l = Ok m -> In m l /\ forall x, In x l -> x <= m.
Proof.
  destruct l as [|a l]; cbn [pymax]; [discriminate|].
  intro E. injection E as <-. split; [apply fold_max_in|].
  intros x [<-|I]; [apply fold_max_ge_init | now apply fold_max_ge].
Qed.

(** What an event does to the bounds: nothing, unless it is the capture
    that completes a cycle, which sets them to the extrema of the table. *)
Lemma handle_event_bounds (pose : Pose R) (st st' : State) (ev : event) :
  handle_event pose st ev = Ok st' ->
  (min_yaw st' = min_yaw st /\ max_yaw st' = max_yaw st /\
   min_pitch st' = min_pitch st /\ max_pitch st' = max_pitch st /\
   (calibrating st' = true \/ calibrating st = false)) \/
  (pymin (map fst (calib_points st')) = Ok (min_yaw st') /\
   pymax (map fst (calib_points st')) = Ok (max_yaw st') /\
   pymin (map snd (calib_points st')) = Ok (min_pitch st') /\
   pymax (map snd (calib_points st')) = Ok (max_pitch st')).
Proof.
  destruct ev as [|[| |]|]; cbn [handle_event].
  - intro E. injection E as <-. left. cbn.
    destruct (calibrating st); auto 6.
  - intro E. injection E as <-. left. cbn. auto 6.
  - destruct (calibrating st) eqn:C.
    + destruct (Nat.ltb 3 (S (calib_step st))).
      * destruct (pymin (map fst _)) as [a|] eqn:Ea; [|discriminate].
        destruct (pymax (map fst _)) as [b|] eqn:Eb; [|discriminate].
        destruct (pymin (map snd _)) as [c|] eqn:Ec; [|discriminate].
        destruct (pymax (map snd _)) as [d|] eqn:Ed; [|discriminate].
        cbn [bind]. intro E. injection E as <-. right. cbn. auto.
      * intro E. injection E as <-. left. cbn. auto 6.
    + intro E. injection E as <-. left. auto 6.
  - intro E. injection E as <-. left. destruct (calibrating st); auto 6.
  - intro E. injection E as <-. left. destruct (calibrating st); auto 6.
Qed.

(** X14.  The capture that completes a cycle sets the bounds of the
    coarse mode to the extrema of the table: every sample lies between
    [min_yaw] and [max_yaw] and between [min_pitch] and [max_pitch], and
    each bound is the yaw or the pitch of one of the samples. *)
Theorem completion_sets_bounds (pose : Pose R) (st st' : State) :
  calibrating st = true ->
  handle_event pose st (KEYDOWN K_SPACE) = Ok st' ->
  calibrating st' = false ->
  (forall s, In s (calib_points st') ->
             min_yaw st' <= fst s <= max_yaw st' /\
             min_pitch st' <= snd s <= max_pitch st') /\
  In (min_yaw st') (map fst (calib_points st')) /\
  In (max_yaw st') (map fst (calib_points st')) /\
  In (min_pitch st') (map snd (calib_points st')) /\
  In (max_pitch st') (map snd (calib_points st')).
Proof.
  intros C E C'.
  destruct (handle_event_bounds pose st st' _ E)
    as [(_ & _ & _ & _ & [F|F])|(Ea & Eb & Ec & Ed)]; try congruence.
  apply pymin_spec in Ea, Ec. apply pymax_spec in Eb, Ed.
  destruct Ea as [Ia La], Eb as [Ib Lb], Ec as [Ic Lc], Ed as [Id Ld].
  repeat split; try assumption.
  - apply La. now apply in_map.
  - apply Lb. now apply in_map.
  - apply Lc. now apply in_map.
  - apply Ld. now apply in_map.
Qed.

Lemma completion_sets_bounds_witness :
  exists st',
    handle_event pose_BL three_corners_state (KEYDOWN K_SPACE) = Ok st' /\
    calib_points st' = scenario_table /\
    In (min_yaw st') (map fst scenario_table) /\
    In (max_yaw st') (map fst scenario_table).
Proof.
  destruct (capture_step pose_BL three_corners_state eq_refl)
    as (st' & E & P & _ & C).
  exists st'. split; [exact E|].
  assert (T : calib_points st' = scenario_table) by (rewrite P; reflexivity).
  split; [exact T|]. rewrite <- T.
  destruct (completion_sets_bounds pose_BL three_corners_state st'
                                   eq_refl E C) as (_ & A & B & _).
  split; assumption.
Defined.

Lemma handle_event_bounds_ordered (pose : Pose R) (st st' : State)
      (ev : event) :
  bounds_ordered st -> handle_event pose st ev = Ok st' -> bounds_ordered st'.
Proof.
  intros [By Bp] E. unfold bounds_ordered.
  destruct (handle_event_bounds pose st st' ev E)
    as [(-> & -> & -> & -> & _)|(Ea & Eb & Ec & Ed)]; [auto|].
  apply pymin_spec in Ea, Ec. apply pymax_spec in Eb, Ed.
  destruct Ea as [Ia La], Eb as [Ib Lb], Ec as [Ic Lc], Ed as [Id Ld].
  split; [now apply Lb | now apply Ld].
Qed.

(** X15.  In every state a session reaches from the initial one the
    bounds are ordered, [min_yaw <= max_yaw] and [min_pitch <= max_pitch]:
    the range the coarse mode divides by is never negative. *)
Theorem bounds_stay_ordered (trace : list (Pose R * event)) (st : State) :
  run init_state trace = Ok st ->
  min_yaw st <= max_yaw st /\ min_pitch st <= max_pitch st.
Proof.
  assert (G : forall tr s s', bounds_ordered s -> run s tr = Ok s' ->
                              bounds_ordered s').
  { induction tr as [|[pose ev] tr IH]; intros s s' B.
    - cbn. intro E. injection E as <-. exact B.
    - rewrite run_cons. cbn [fst snd].
      destruct (handle_event pose s ev) as [s1|x] eqn:E1; cbn [bind];
        [|discriminate].
      apply IH. exact (handle_event_bounds_ordered pose s s1 ev B E1). }
  apply G. unfold bounds_ordered. cbn. lra.
Qed.

Lemma bounds_stay_ordered_witness :
  min_yaw scenario_state <= max_yaw scenario_state /\
  min_pitch scenario_state <= max_pitch scenario_state.
Proof.
  apply (bounds_stay_ordered
           [start scenario_pose; capture pose_TL; capture pose_TR;
            capture pose_BR; capture pose_BL] scenario_state).
  apply scenario_calibrated.
Defined.

End Bounds.

(** ** The frame and the main loop *)

Section FrameFacts.

Local Open Scope R_scope.

Lemma init_table_inv : table_inv init_state.
Proof.
  split.
  - unfold calib_inv. cbn. discriminate.
  - intros _. now left.
Qed.

(** Every event keeps the invariant of the table, and raises nothing. *)
Lemma handle_event_table_inv (pose : Pose R) (st : State) (ev : event) :
  table_inv st ->
  exists st', handle_event pose st ev = Ok st' /\ table_inv st'.
Proof.
  intros [I T].
  destruct (handle_event_inv pose st ev I) as (st' & E & I').
  exists st'. split; [exact E|]. split; [exact I'|].
  intro C'.
  destruct ev as [|[| |]|].
  - destruct (other_event_step pose st QUIT) as (s & Es & Cs & _ & Ps);
      try discriminate.
    rewrite E in Es. injection Es as <-. rewrite Ps. apply T. congruence.
  - destruct (start_step pose st) as (s & Es & Cs & _).
    rewrite E in Es. injection Es as <-. congruence.
  - destruct (calibrating st) eqn:C.
    + destruct (capture_step pose st C) as (s & Es & Ps & Ss & Cs).
      rewrite E in Es. injection Es as <-.
      right. rewrite Ps, length_app. cbn [List.length].
      destruct (I C) as [L B].
      rewrite C' in Cs. symmetry in Cs. apply negb_false_iff in Cs.
      apply Nat.ltb_lt in Cs. lia.
    + rewrite (capture_idle pose st C) in E. injection E as <-. now apply T.
  - cbn in E. injection E as <-. now apply T.
  - cbn in E. injection E as <-. now apply T.
Qed.

Lemma run_table_inv (trace : list (Pose R * event)) :
  forall st st', table_inv st -> run st trace = Ok st' -> table_inv st'.
Proof.
  induction trace as [|[pose ev] trace IH]; intros st st' I.
  - cbn. intro E. now injection E as <-.
  - rewrite run_cons. cbn [fst snd].
    destruct (handle_event_table_inv pose st ev I) as (s & E & Is).
    rewrite E. cbn [bind]. now apply IH.
Qed.






(** X17.  In every state a session reaches from the initial one the UI
    text section raises no [IndexError]; while calibrating, the label and
    the marker go together (Top-Left at [(20, 20)], Top-Right at
    [(1260, 20)], Bottom-Right at [(1260, 700)], Bottom-Left at
    [(20, 700)]), so the default marker [(0, 0)] is never drawn; when not
    calibrating there is neither label nor marker. *)
Theorem prompt_and_marker_agree (trace : list (Pose R * event)) (st : State) :
  run init_state trace = Ok st ->
  (calibrating st = true ->
   exists label m,
     prompt st = Ok (Some label) /\ marker st = Some m /\
     In (label, m)
        [("Top-Left"%string, (20, 20)%Z);
         ("Top-Right"%string, (1260, 20)%Z);
         ("Bottom-Right"%string, (1260, 700)%Z);
         ("Bottom-Left"%string, (20, 700)%Z)]) /\
  (calibrating st = false -> prompt st = Ok None /\ marker st = None).
Proof.
  intro E.
  pose proof (run_table_inv trace init_state st init_table_inv E) as [I _].
  unfold prompt, marker. split; intro C; rewrite C; [|auto].
  destruct (I C) as [_ B].
  destruct (calib_step st) as [|[|[|[|n]]]]; [| | | |lia];
    cbn [steps nth_error]; do 2 eexists;
    (split; [reflexivity|]); (split; [reflexivity|]); cbn [In]; auto.
Qed.

Lemma prompt_and_marker_agree_witness :
  exists label m,
    prompt (mkState true true 1 [sample pose_TL] (-20) 20 (-20) 20)
    = Ok (Some label) /\
    marker (mkState true true 1 [sample pose_TL] (-20) 20 (-20) 20)
    = Some m /\
    In (label, m)
       [("Top-Left"%string, (20, 20)%Z);
        ("Top-Right"%string, (1260, 20)%Z);
        ("Bottom-Right"%string, (1260, 700)%Z);
        ("Bottom-Left"%string, (20, 700)%Z)].
Proof.
  apply (proj1 (prompt_and_marker_agree
                  [start scenario_pose; capture pose_TL]
                  (mkState true true 1 [sample pose_TL] (-20) 20 (-20) 20)
                  eq_refl)).
  reflexivity.
Defined.

(** *** The head box *)








(** *** The loop *)








End FrameFacts.
